(** * Ontario Sign Association directory scraper (scrape-osa.js)

    A shallow embedding of [scrape-osa.js] and the properties of its
    link enumeration, profile walk, field extraction, retry loop and
    export sinks.

    - JavaScript strings are sequences of UTF-16 code units.
    - The profile document is a tree of element, text and comment nodes.
    - The browser, the CSV writer and the spreadsheet API are an oracle
      over an arbitrary world state; every awaited call may succeed or
      reject, and every call is recorded with its outcome. *)

From Stdlib Require Import NArith.
From stdpp Require Import base decidable option list sets strings.

Open Scope N_scope.
Open Scope nat_scope.
Open Scope list_scope.

(** ** JavaScript strings *)

Module JsString.

Definition code_unit := N.
Definition jsstring := list code_unit.

(** An ASCII literal of the source as a sequence of code units. *)
Definition js (s : string) : jsstring :=
  map (fun a : Ascii.ascii => N.of_nat (Ascii.nat_of_ascii a)) (String.list_ascii_of_string s).
Arguments js s%_string : simpl never.

(** ECMAScript WhiteSpace and LineTerminator code points, the ones
    [String.prototype.trim] strips. *)
Definition isWhiteSpace (c : code_unit) : bool :=
  ((9 <=? c) && (c <=? 13))%N
  || (c =? 32)%N || (c =? 160)%N || (c =? 5760)%N
  || ((8192 <=? c) && (c <=? 8202))%N
  || (c =? 8232)%N || (c =? 8233)%N || (c =? 8239)%N || (c =? 8287)%N
  || (c =? 12288)%N || (c =? 65279)%N.

Fixpoint trimStart (s : jsstring) : jsstring :=
  match s with
  | [] => []
  | c :: s' => if isWhiteSpace c then trimStart s' else s
  end.

Definition trimEnd (s : jsstring) : jsstring := rev (trimStart (rev s)).

(** [s.trim()] *)
Definition trim (s : jsstring) : jsstring := trimEnd (trimStart s).

(** [a === b] on strings *)
Definition strictEq (a b : jsstring) : bool := bool_decide (a = b).

Fixpoint startsWith (needle hay : jsstring) : bool :=
  match needle, hay with
  | [], _ => true
  | _ :: _, [] => false
  | n :: needle', h :: hay' => (n =? h)%N && startsWith needle' hay'
  end.

(** [hay.includes(needle)] on strings *)
Fixpoint includes (needle hay : jsstring) : bool :=
  startsWith needle hay ||
  match hay with
  | [] => false
  | _ :: hay' => includes needle hay'
  end.

(** A string with no white space at either end. *)
Definition trimmed (s : jsstring) : Prop :=
  (forall c, head s = Some c -> isWhiteSpace c = false) /\
  (forall c, last s = Some c -> isWhiteSpace c = false).

End JsString.
Export JsString.

(** ** JavaScript values that occur in the extractor *)

Inductive jsval :=
| JUndefined
| JString (s : jsstring).

(** ToBoolean *)
Definition truthy (v : jsval) : bool :=
  match v with
  | JUndefined => false
  | JString s => negb (bool_decide (s = []))
  end.

(** [a || b] *)
Definition js_or (a b : jsval) : jsval := if truthy a then a else b.
Infix "|||" := js_or (at level 50, left associativity).

(** ToString, as applied by a template literal *)
Definition toString (v : jsval) : jsstring :=
  match v with
  | JUndefined => js "undefined"
  | JString s => s
  end.

Definition is_string (v : jsval) : Prop := exists s, v = JString s.

(** ** The profile document *)

Module Dom.

(** Tag names are the lower-case local names a type selector matches. *)
#[warnings="-register-all"]
Inductive node :=
| Text (data : jsstring)
| Comment (data : jsstring)
| Element (tag : jsstring) (children : list node).

(** The document element always exists in a loaded page. *)
Record Document := { rootTag : jsstring; rootChildren : list node }.

Definition documentElement (d : Document) : node :=
  Element (rootTag d) (rootChildren d).

Definition isElement (n : node) : bool :=
  match n with Element _ _ => true | _ => false end.

(** [node.textContent]: the text of all descendant text nodes, in
    document order, comments excluded. *)
Fixpoint textContent (n : node) : jsstring :=
  match n with
  | Text s => s
  | Comment _ => []
  | Element _ kids => flat_map textContent kids
  end.

(** The first element among the following siblings. *)
Definition firstElement (following : list node) : option node :=
  List.find isElement following.

(** An element together with the two neighbours [getText] looks at:
    [el.nextElementSibling] and [el.parentElement?.nextElementSibling]. *)
Record located := {
  el : node;
  nextElementSibling : option node;
  parentNextElementSibling : option node
}.

(** [document.querySelectorAll('*')] below [n], in document order; [following]
    are the siblings after [n] and [pnext] is the parent's next element
    sibling ([None] also when there is no parent element). *)
Fixpoint locate (pnext : option node) (n : node) (following : list node) : list located :=
  match n with
  | Element _ kids =>
      let next := firstElement following in
      {| el := n; nextElementSibling := next; parentNextElementSibling := pnext |}
      :: (fix siblings (l : list node) : list located :=
            match l with
            | [] => []
            | k :: l' => locate next k l' ++ siblings l'
            end) kids
  | _ => []
  end.

Definition querySelectorAllStar (d : Document) : list located :=
  locate None (documentElement d) [].

Definition hasTag (t : jsstring) (n : node) : bool :=
  match n with
  | Element t' _ => strictEq t' t
  | _ => false
  end.

(** [document.querySelector(tag)] for a type selector. *)
Definition querySelector (t : jsstring) (d : Document) : option node :=
  List.find (hasTag t) (map el (querySelectorAllStar d)).

End Dom.
Export Dom.

(** ** Field Extractor: the callback of [page.evaluate] on a profile page *)

Module Extractor.

(** [el.textContent && el.textContent.trim() === label] *)
Definition matchesLabel (label : jsstring) (e : located) : bool :=
  negb (bool_decide (textContent (el e) = []))
  && strictEq (trim (textContent (el e))) label.

(** The body of the [for (const el of labels)] loop of [getText]. *)
Fixpoint scanLabels (label : jsstring) (labels : list located) : jsstring :=
  match labels with
  | [] => []
  | e :: rest =>
      if matchesLabel label e then
        match nextElementSibling e with
        | Some nextEl => trim (textContent nextEl)
        | None =>
            match parentNextElementSibling e with
            | Some p => trim (textContent p)
            | None => scanLabels label rest
            end
        end
      else scanLabels label rest
  end.

Definition getText (label : jsstring) (d : Document) : jsval :=
  JString (scanLabels label (querySelectorAllStar d)).

(** [document.querySelector(t)?.textContent.trim()] *)
Definition headingText (t : jsstring) (d : Document) : jsval :=
  match querySelector t d with
  | Some h => JString (trim (textContent h))
  | None => JUndefined
  end.

Record MemberRecord := {
  company : jsval;
  contact : jsval;
  phone : jsval;
  email : jsval;
  city : jsval;
  province : jsval;
  website : jsval;
  memberType : jsval
}.

Definition space : jsstring := js " ".

(** [`${firstName} ${lastName}`.trim()] *)
Definition contactOf (firstName lastName : jsval) : jsval :=
  JString (trim (toString firstName ++ space ++ toString lastName)).

Definition companyOf (d : Document) : jsval :=
  headingText (js "h3") d ||| headingText (js "h2") d ||| JString [].

Definition firstNameOf (d : Document) : jsval := getText (js "First name") d ||| JString [].
Definition lastNameOf (d : Document) : jsval := getText (js "Last name") d ||| JString [].

Definition memberInfo (d : Document) : MemberRecord :=
  let company := companyOf d in
  let firstName := firstNameOf d in
  let lastName := lastNameOf d in
  let contact := contactOf firstName lastName in
  let email := getText (js "Email") d ||| JString [] in
  let city := getText (js "City") d ||| JString [] in
  let province := getText (js "Province/State") d ||| JString [] in
  let website := getText (js "Web Site") d ||| JString [] in
  let phone := JString [] in
  let memberType := JString [] in
  {| company := company; contact := contact; phone := phone; email := email;
     city := city; province := province; website := website;
     memberType := memberType |}.

End Extractor.
Export Extractor.

(** ** Sample profile documents *)

Module Samples.

Definition elem (t : string) (kids : list node) : node := Element (js t) kids.
Definition text (s : string) : node := Text (js s).

(** A labelled field as the directory renders it: a label cell followed
    by a value cell. *)
Definition field (label value : string) : node :=
  elem "div" [elem "div" [elem "span" [text label]]; elem "div" [elem "span" [text value]]].

Definition page (body : list node) : Document :=
  {| rootTag := js "html";
     rootChildren := [elem "head" [elem "title" [text "Member profile"]]; elem "body" body] |}.

Definition acmeProfile : Document :=
  page [elem "h3" [text " Acme Signs "];
        field "First name" "Jane";
        field "Last name" "Doe";
        field "Email" " jane@acme.com"].

Definition acmeRecord : MemberRecord :=
  {| company := JString (js "Acme Signs");
     contact := JString (js "Jane Doe");
     phone := JString [];
     email := JString (js "jane@acme.com");
     city := JString [];
     province := JString [];
     website := JString [];
     memberType := JString [] |}.

(** A page with an [h1], an [h3] holding only white space, and an [h2]. *)
Definition blankHeadingProfile : Document :=
  page [elem "h1" [text "Directory"]; elem "h3" [text "  "]; elem "h2" [text "Acme Signs"]].

(** Two blocks carrying the same label. *)
Definition twoCitiesProfile : Document :=
  page [field "City" "Ottawa"; field "City" "Toronto"].

End Samples.

(** The heading rule in the words of the specification, for a choice of
    the primary and the fallback heading tag. *)
Definition specCompany (primary fallback : jsstring) (d : Document) : jsval :=
  match querySelector primary d with
  | Some h => JString (trim (textContent h))
  | None =>
      match querySelector fallback d with
      | Some h => JString (trim (textContent h))
      | None => JString []
      end
  end.

(** ** Effects: calls into the browser, the CSV writer and the sheets API *)

Module Effects.

Record Error := { message : jsstring }.

(** How an awaited call, or a block, completes. *)
Inductive result (A : Type) :=
| Returns (a : A)
| Throws (e : Error).
Arguments Returns {A} a.
Arguments Throws {A} e.

(** The files the screenshots go to:
    [`page_option_${optionValue}.png`], ['screenshot.png'],
    ['debug_no_links.png'] and [`member_${i + 1}.png`]. *)
Inductive ShotPath :=
| ShotOption (optionValue : jsstring)
| ShotMain
| ShotNoLinks
| ShotMember (ordinal : nat).

(** The object the debugging [page.evaluate] returns. *)
Record DebugInfo := {
  totalLinks : nat;
  publicProfileLinks : nat;
  memberElements : nat;
  memberValueElements : nat;
  sampleLinks : list jsstring;
  allClasses : list jsstring
}.

(** The calls whose outcome the script does not control, indexed by the
    type of what they return; each of them may reject.
    - [Launch], [NewPage], [SetDefaultTimeout], [SetUserAgent], [Goto],
      [WaitForSelector], [Screenshot], [Content], [Title], [Url] and
      [BrowserClose] are the puppeteer calls of these names.
    - [SelectOptions]: the values of the options of ['#idPagingData2 select'],
      [None] when the page has no such element.
    - [ChooseOption v]: set the select to [v] and dispatch [change].
    - [AnchorHrefs]: the [href] of every [a] element, in document order.
    - [PageInfo]: the debugging summary of the page.
    - [ScrollTo]: [window.scrollTo] to the bottom or back to the top.
    - [ProfileDocument]: the document the extractor is evaluated in.
    - [WriteRecords]: [csvWriter.writeRecords].
    - [GetClient], [ValuesClear], [ValuesUpdate]: [auth.getClient] and
      [sheets.spreadsheets.values.clear] and [.update]. *)
Inductive Call : Type -> Type :=
| Launch : Call unit
| NewPage : Call unit
| SetDefaultTimeout (ms : N) : Call unit
| SetUserAgent (ua : jsstring) : Call unit
| Goto (url : jsstring) (timeout : N) : Call unit
| WaitForSelector (selector : jsstring) (timeout : N) : Call unit
| SelectOptions : Call (option (list jsstring))
| ChooseOption (value : jsstring) : Call unit
| AnchorHrefs : Call (list jsstring)
| Screenshot (path : ShotPath) (fullPage : bool) : Call unit
| Content : Call jsstring
| Title : Call jsstring
| Url : Call jsstring
| PageInfo : Call DebugInfo
| ScrollTo (bottom : bool) : Call unit
| ProfileDocument : Call Document
| BrowserClose : Call unit
| WriteRecords (rows : list MemberRecord) : Call unit
| GetClient : Call unit
| ValuesClear (range : jsstring) : Call unit
| ValuesUpdate (range : jsstring) (values : list (list jsval)) : Call unit.

(** What [console.log], [console.warn] and [console.error] print. *)
Inductive LogLine :=
| AvailableOptions (options : list jsstring)
| ProcessingOption (optionValue : jsstring)
| FoundLinks (count : nat) (optionValue : jsstring)
| TotalUnique (count : nat)
| PaginationError (msg : jsstring)
| PageTitle (title : jsstring)
| PageUrl (url : jsstring)
| RedirectWarning (url : jsstring)
| Debugging
| PageDebugInfo (info : DebugInfo)
| Scrolling
| ProcessingLinks (count : nat)
| NoMemberLinks
| ProcessingMember (ordinal total : nat) (link : jsstring)
| MemberError (ordinal : nat) (msg : jsstring)
| Retrying (attemptsLeft : nat)
| UsingCredentials
| AuthSuccessful
| Uploaded (count : nat)
| SheetError (msg : jsstring)
| SheetFullError (e : Error)
| Saved (count : nat)
| NoData
| ScrapeError (e : Error).

Inductive Event :=
| Called {T : Type} (c : Call T) (r : result T)
| Slept (ms : N)
| Logged (line : LogLine).

(** The world answers every call and moves to a new state, also when the
    call rejects. *)
Class Oracle (W : Type) := respond : forall T, Call T -> W -> result T * W.

Section Monad.

Context {W : Type} `{Oracle W}.

(** The world and the two arrays the script mutates in place; both arrays
    outlive a [catch], so what was pushed before a failure stays. *)
Record Store := {
  world : W;
  allMemberLinks : list jsstring;
  members : list MemberRecord
}.

Record Run (A : Type) := {
  outcome : result A;
  final : Store;
  events : list Event
}.
Arguments outcome {A} r.
Arguments final {A} r.
Arguments events {A} r.

Definition M (A : Type) : Type := Store -> Run A.

Definition ret {A} (a : A) : M A :=
  fun s => {| outcome := Returns a; final := s; events := [] |}.

Definition throw {A} (e : Error) : M A :=
  fun s => {| outcome := Throws e; final := s; events := [] |}.

Definition bind {A B} (m : M A) (k : A -> M B) : M B :=
  fun s =>
    match m s with
    | {| outcome := Returns a; final := s1; events := evs1 |} =>
        match k a s1 with
        | {| outcome := o; final := s2; events := evs2 |} =>
            {| outcome := o; final := s2; events := evs1 ++ evs2 |}
        end
    | {| outcome := Throws e; final := s1; events := evs1 |} =>
        {| outcome := Throws e; final := s1; events := evs1 |}
    end.

(** [try { m } catch (e) { h e }] *)
Definition tryCatch {A} (m : M A) (h : Error -> M A) : M A :=
  fun s =>
    match m s with
    | {| outcome := Returns a; final := s1; events := evs1 |} =>
        {| outcome := Returns a; final := s1; events := evs1 |}
    | {| outcome := Throws e; final := s1; events := evs1 |} =>
        match h e s1 with
        | {| outcome := o; final := s2; events := evs2 |} =>
            {| outcome := o; final := s2; events := evs1 ++ evs2 |}
        end
    end.

Definition call {T} (c : Call T) : M T :=
  fun s =>
    match respond T c (world s) with
    | (r, w) =>
        {| outcome := r;
           final := {| world := w; allMemberLinks := allMemberLinks s; members := members s |};
           events := [Called c r] |}
    end.

(** [await new Promise(resolve => setTimeout(resolve, ms))] *)
Definition sleep (ms : N) : M unit :=
  fun s => {| outcome := Returns tt; final := s; events := [Slept ms] |}.

Definition log (line : LogLine) : M unit :=
  fun s => {| outcome := Returns tt; final := s; events := [Logged line] |}.

Definition getLinks : M (list jsstring) :=
  fun s => {| outcome := Returns (allMemberLinks s); final := s; events := [] |}.

Definition setLinks (links : list jsstring) : M unit :=
  fun s => {| outcome := Returns tt;
              final := {| world := world s; allMemberLinks := links; members := members s |};
              events := [] |}.

Definition getMembers : M (list MemberRecord) :=
  fun s => {| outcome := Returns (members s); final := s; events := [] |}.

Definition setMembers (ms : list MemberRecord) : M unit :=
  fun s => {| outcome := Returns tt;
              final := {| world := world s; allMemberLinks := allMemberLinks s; members := ms |};
              events := [] |}.

End Monad.

Arguments Store W : clear implicits.
Arguments Run W A : clear implicits.
Arguments M W A : clear implicits.
Arguments outcome {W A} r.
Arguments final {W A} r.
Arguments events {W A} r.

Declare Scope js_scope.
Delimit Scope js_scope with js_do.
Notation "x <- m ;; k" := (bind m (fun x => k))
  (at level 100, m at next level, right associativity) : js_scope.
Notation "m ;; k" := (bind m (fun _ => k))
  (at level 100, right associativity) : js_scope.

End Effects.
Export Effects.
Open Scope js_scope.

(** ** The script *)

Module Scraper.

Definition directoryUrl : jsstring :=
  js "https://www.ontariosignassociation.com/member-directory".
Definition userAgent : jsstring :=
  js "Mozilla/5.0 (Macintosh; Intel Mac OS X 10_15_7) AppleWebKit/537.36 (KHTML, like Gecko) Chrome/120.0.0.0 Safari/537.36".
Definition pagingSelect : jsstring := js "#idPagingData2 select".

(** [if (!allMemberLinks.includes(link)) allMemberLinks.push(link)] *)
Definition pushUnique (links : list jsstring) (link : jsstring) : list jsstring :=
  if bool_decide (link ∈ links) then links else links ++ [link].

(** [pageMemberLinks.forEach(link => ...)] *)
Definition addUnique (pageMemberLinks links : list jsstring) : list jsstring :=
  foldl pushUnique links pageMemberLinks.

(** [link.href && link.href.includes('PublicProfile')] *)
Definition isProfileLink (href : jsstring) : bool :=
  negb (bool_decide (href = [])) && includes (js "PublicProfile") href.

(** From the [href] of every anchor of the page, in document order. *)
Definition profileLinks (hrefs : list jsstring) : list jsstring :=
  List.filter isProfileLink hrefs.

(** The value [scrapeData] resolves to: the [members] array, or
    [undefined] when control leaves the [while] loop. *)
Inductive ScrapeValue :=
| Rows (rows : list MemberRecord)
| Undefined.

Definition headers : list jsval :=
  map JString
    [js "Company Name"; js "Contact Name"; js "Phone"; js "Email"; js "City";
     js "Province"; js "Website"; js "Member Type"].

Definition rowValues (row : MemberRecord) : list jsval :=
  [company row; contact row; phone row; email row; city row; province row;
   website row; memberType row].

Section Script.

Context {W : Type} `{Oracle W}.

(** Lines 88-123: the body of [for (const optionValue of paginationOptions)]. *)
Definition processOption (optionValue : jsstring) : M W unit :=
  log (ProcessingOption optionValue);;
  call (ChooseOption optionValue);;
  sleep 3000;;
  hrefs <- call AnchorHrefs;;
  let pageMemberLinks := profileLinks hrefs in
  log (FoundLinks (length pageMemberLinks) optionValue);;
  links <- getLinks;;
  setLinks (addUnique pageMemberLinks links);;
  call (Screenshot (ShotOption optionValue) false).

Fixpoint forOptions (paginationOptions : list jsstring) : M W unit :=
  match paginationOptions with
  | [] => ret tt
  | optionValue :: rest => processOption optionValue;; forOptions rest
  end.

(** Lines 74-125: the block of the inner [try]. *)
Definition paginationBody : M W unit :=
  call (WaitForSelector pagingSelect 10000);;
  found <- call SelectOptions;;
  let paginationOptions := default [] found in
  log (AvailableOptions paginationOptions);;
  forOptions paginationOptions;;
  links <- getLinks;;
  log (TotalUnique (length links)).

(** Lines 73-129: the inner [try]/[catch]. *)
Definition paginate : M W unit :=
  tryCatch paginationBody (fun error => log (PaginationError (message error))).

(** Lines 71-129: [const allMemberLinks = []], then the inner [try]/[catch]. *)
Definition enumerate : M W unit :=
  setLinks [];;
  paginate.

(** Lines 131-181: screenshot, page dump, debugging and scrolling. *)
Definition diagnostics : M W unit :=
  call (Screenshot ShotMain false);;
  _ <- call Content;;
  title <- call Title;;
  log (PageTitle title);;
  url <- call Url;;
  log (PageUrl url);;
  url1 <- call Url;;
  (if includes (js "member-directory") url1 then ret tt
   else (url2 <- call Url;; log (RedirectWarning url2)));;
  log Debugging;;
  info <- call PageInfo;;
  log (PageDebugInfo info);;
  log Scrolling;;
  call (ScrollTo true);;
  sleep 3000;;
  call (ScrollTo false);;
  sleep 2000.

(** Lines 197-265: one iteration of the profile loop. *)
Definition visit (i total : nat) (link : jsstring) : M W unit :=
  log (ProcessingMember (S i) total link);;
  tryCatch
    (call (Goto link 30000);;
     sleep 2000;;
     doc <- call ProfileDocument;;
     ms <- getMembers;;
     setMembers (ms ++ [memberInfo doc]);;
     call (Screenshot (ShotMember (S i)) false))
    (fun error => log (MemberError (S i) (message error))).

Fixpoint walk (i total : nat) (memberLinks : list jsstring) : M W unit :=
  match memberLinks with
  | [] => ret tt
  | link :: rest => visit i total link;; walk (S i) total rest
  end.

(** Lines 189-191: the branch taken when no link was collected. *)
Definition noLinks : M W (list MemberRecord) :=
  log NoMemberLinks;;
  call (Screenshot ShotNoLinks true);;
  ret [].

(** Lines 195-269: the profile loop, closing the browser, the result. *)
Definition visitAll (memberLinks : list jsstring) : M W (list MemberRecord) :=
  setMembers [];;
  walk 0 (length memberLinks) memberLinks;;
  call BrowserClose;;
  getMembers.

(** Lines 183-269. *)
Definition walkPhase : M W (list MemberRecord) :=
  memberLinks <- getLinks;;
  log (ProcessingLinks (length memberLinks));;
  if (length memberLinks =? 0)%nat then noLinks else visitAll memberLinks.

(** Lines 67-269: what an attempt does once the directory has loaded. *)
Definition afterNavigation : M W (list MemberRecord) :=
  sleep 5000;;
  enumerate;;
  diagnostics;;
  walkPhase.

(** Lines 62-269: the body of the outer [try]. *)
Definition attempt : M W (list MemberRecord) :=
  call (Goto directoryUrl 120000);;
  afterNavigation.

(** Lines 60-275: [while (retries--) { try {...} catch (err) {...} }].
    The argument is the value of [retries] when the condition is tested;
    inside the body the variable holds one less. *)
Fixpoint retryLoop (retries : nat) : M W ScrapeValue :=
  match retries with
  | 0 => ret Undefined
  | S remaining =>
      finished <-
        tryCatch
          (rows <- attempt;; ret (Some (Rows rows)))
          (fun err =>
             log (Retrying remaining);;
             if (remaining =? 0)%nat then throw err else ret None);;
      match finished with
      | Some v => ret v
      | None => retryLoop remaining
      end
  end.

(** Lines 39-57: the browser and its page, opened before the loop. *)
Definition openSession : M W unit :=
  call Launch;;
  call NewPage;;
  call (SetDefaultTimeout 120000);;
  call (SetUserAgent userAgent).

(** Lines 38-276. *)
Definition scrapeData : M W ScrapeValue :=
  openSession;;
  retryLoop 3.

(** Lines 278-335. Only the awaited calls of the sheets client are calls
    into the world. *)
Definition saveToGoogleSheet (rows : list MemberRecord) : M W unit :=
  tryCatch
    (log UsingCredentials;;
     call GetClient;;
     log AuthSuccessful;;
     let data := map rowValues rows in
     call (ValuesClear (js "A:Z"));;
     call (ValuesUpdate (js "A1") (headers :: data));;
     log (Uploaded (length rows)))
    (fun error =>
       log (SheetError (message error));;
       log (SheetFullError error)).

(** Lines 341-349. Reading [rows.length] of [undefined] throws. *)
Definition exportRows (v : ScrapeValue) : M W unit :=
  match v with
  | Undefined =>
      throw {| message := js "Cannot read properties of undefined (reading 'length')" |}
  | Rows rows =>
      if (0 <? length rows)%nat then
        (call (WriteRecords rows);;
         log (Saved (length rows));;
         saveToGoogleSheet rows)
      else log NoData
  end.

(** Lines 337-354. *)
Definition main : M W unit :=
  tryCatch
    (rows <- scrapeData;; exportRows rows)
    (fun err => log (ScrapeError err)).

End Script.

End Scraper.
Export Scraper.

(** ** Reading a run's events *)

Module Trace.

(** The profile URL of a [page.goto(link, {timeout: 30000})]. *)
Definition profileVisit (ev : Event) : option jsstring :=
  match ev with
  | Called c _ =>
      match c with
      | Goto url timeout => if (timeout =? 30000)%N then Some url else None
      | _ => None
      end
  | _ => None
  end.

Definition profileVisits (evs : list Event) : list jsstring := omap profileVisit evs.

(** [page.goto] of the directory root: the start of an attempt. *)
Definition isRootNavigation (ev : Event) : bool :=
  match ev with
  | Called c _ =>
      match c with
      | Goto url timeout => (timeout =? 120000)%N && strictEq url directoryUrl
      | _ => false
      end
  | _ => false
  end.

Definition attempts (evs : list Event) : nat := length (List.filter isRootNavigation evs).

Definition isLaunch (ev : Event) : bool :=
  match ev with
  | Called c _ => match c with Launch => true | _ => false end
  | _ => false
  end.

Definition launches (evs : list Event) : nat := length (List.filter isLaunch evs).

(** A call into the CSV writer. *)
Definition isFileSinkCall (ev : Event) : bool :=
  match ev with
  | Called c _ => match c with WriteRecords _ => true | _ => false end
  | _ => false
  end.

(** A call into the sheets client. *)
Definition isSheetSinkCall (ev : Event) : bool :=
  match ev with
  | Called c _ =>
      match c with
      | GetClient | ValuesClear _ | ValuesUpdate _ _ => true
      | _ => false
      end
  | _ => false
  end.

Definition isSinkCall (ev : Event) : bool := isFileSinkCall ev || isSheetSinkCall ev.

(** The profile links one successful scan of the anchors yields. *)
Definition surfacedBy (ev : Event) : option (list jsstring) :=
  match ev with
  | @Called T c r =>
      match c in Call T0 return result T0 -> option (list jsstring) with
      | AnchorHrefs =>
          fun r => match r with
                   | Returns hrefs => Some (profileLinks hrefs)
                   | Throws _ => None
                   end
      | _ => fun _ => None
      end r
  | _ => None
  end.

Definition surfaced (evs : list Event) : list (list jsstring) := omap surfacedBy evs.

(** The option values selected, in the order they were selected. *)
Definition chosenOption (ev : Event) : option jsstring :=
  match ev with
  | Called c _ => match c with ChooseOption v => Some v | _ => None end
  | _ => None
  end.

Definition chosenOptions (evs : list Event) : list jsstring := omap chosenOption evs.

(** The error of a call that rejected. *)
Definition thrownBy (ev : Event) : option Error :=
  match ev with
  | Called _ (Throws e) => Some e
  | _ => None
  end.

Definition thrown (evs : list Event) : list Error := omap thrownBy evs.

Definition retryLog (ev : Event) : option nat :=
  match ev with
  | Logged (Retrying n) => Some n
  | _ => None
  end.

Definition retryLogs (evs : list Event) : list nat := omap retryLog evs.

Definition isTopLevelError (ev : Event) : bool :=
  match ev with
  | Logged (ScrapeError _) => true
  | _ => false
  end.

(** The run is reported as successful: the records were announced as
    saved and no top-level failure was printed. *)
Definition reportedSuccessful (evs : list Event) : Prop :=
  (exists n, Logged (Saved n) ∈ evs) /\
  List.filter isTopLevelError evs = [].

Definition isNot (x y : jsstring) : bool := negb (strictEq y x).
Definition notIn (acc : list jsstring) (y : jsstring) : bool := negb (bool_decide (y ∈ acc)).

(** Keep the first occurrence of every element. *)
Fixpoint firstOccurrences (l : list jsstring) : list jsstring :=
  match l with
  | [] => []
  | x :: l' => x :: List.filter (isNot x) (firstOccurrences l')
  end.

(** Every event of every run of [m] satisfies [P]. *)
Definition emits {W A} (P : Event -> bool) (m : M W A) : Prop :=
  forall s, forallb P (events (m s)) = true.

(** [m] leaves [allMemberLinks] as it found it. *)
Definition keepsLinks {W A} (m : M W A) : Prop :=
  forall s, allMemberLinks (final (m s)) = allMemberLinks s.

(** The links of [m]'s final store are those it started with, extended by
    every link list a scan surfaced during [m], duplicates skipped. *)
Definition collects {W A} (m : M W A) : Prop :=
  forall s,
    allMemberLinks (final (m s))
    = foldl pushUnique (allMemberLinks s) (concat (surfaced (events (m s)))).

(** [m] catches nothing: it throws exactly when one of its calls rejects,
    and then that call is its last one. *)
Definition propagates {W A} (m : M W A) : Prop :=
  forall s,
    match outcome (m s) with
    | Returns _ => thrown (events (m s)) = []
    | Throws e => thrown (events (m s)) = [e]
    end.

Definition isClose (ev : Event) : bool :=
  match ev with
  | Called c _ => match c with BrowserClose => true | _ => false end
  | _ => false
  end.

Definition closes (evs : list Event) : nat := length (List.filter isClose evs).

(** Every attempt in a browser of its own: as many launches as attempts. *)
Definition sessionPerAttempt (evs : list Event) : Prop := launches evs = attempts evs.

(** [n-1; ...; 1; 0]: the values logged by [n] failed attempts in a row. *)
Definition countdown (n : nat) : list nat := rev (seq 0 n).

Definition surfacesNothing (ev : Event) : bool :=
  match surfacedBy ev with None => true | Some _ => false end.
Definition visitsNoProfile (ev : Event) : bool :=
  match profileVisit ev with None => true | Some _ => false end.
Definition choosesNoOption (ev : Event) : bool :=
  match chosenOption ev with None => true | Some _ => false end.
Definition logsNoRetry (ev : Event) : bool :=
  match retryLog ev with None => true | Some _ => false end.
Definition notSinkCall (ev : Event) : bool := negb (isSinkCall ev).
Definition notLaunch (ev : Event) : bool := negb (isLaunch ev).
Definition notRootNavigation (ev : Event) : bool := negb (isRootNavigation ev).
Definition notTopLevelError (ev : Event) : bool := negb (isTopLevelError ev).
Definition notClose (ev : Event) : bool := negb (isClose ev).
Definition throwsNothing (ev : Event) : bool :=
  match thrownBy ev with None => true | Some _ => false end.

(** How the visit of one profile link went. *)
Inductive Visit :=
| NavigationFailed (e : Error)
| ExtractionFailed (e : Error)
| Extracted (doc : Document) (shot : result unit).

(** The record a visit appends to [members]. *)
Definition visitRecord (v : Visit) : option MemberRecord :=
  match v with
  | Extracted doc _ => Some (memberInfo doc)
  | _ => None
  end.

(** The events of the visit of [link] at index [i]. *)
Definition visitEvents (i total : nat) (link : jsstring) (v : Visit) : list Event :=
  Logged (ProcessingMember (S i) total link) ::
  match v with
  | NavigationFailed e =>
      [Called (Goto link 30000) (Throws e); Logged (MemberError (S i) (message e))]
  | ExtractionFailed e =>
      [Called (Goto link 30000) (Returns tt); Slept 2000;
       Called ProfileDocument (Throws e); Logged (MemberError (S i) (message e))]
  | Extracted doc shot =>
      [Called (Goto link 30000) (Returns tt); Slept 2000;
       Called ProfileDocument (Returns doc);
       Called (Screenshot (ShotMember (S i)) false) shot]
      ++ match shot with
         | Returns _ => []
         | Throws e => [Logged (MemberError (S i) (message e))]
         end
  end.

Fixpoint walkEvents (i total : nat) (links : list jsstring) (visits : list Visit)
  : list Event :=
  match links, visits with
  | link :: links', v :: visits' =>
      visitEvents i total link v ++ walkEvents (S i) total links' visits'
  | _, _ => []
  end.

End Trace.
Export Trace.

(** ** A stub site, to run the script on *)

Module Stub.

Record Site := {
  siteOptions : option (list jsstring);
  siteHrefs : jsstring -> list jsstring;
  siteProfile : jsstring -> Document;
  rejects : nat -> bool
}.

(** The number of calls answered so far, the selected pagination option
    and the address of the page. *)
Record World := {
  clock : nat;
  selected : jsstring;
  location : jsstring
}.

Definition noInfo : DebugInfo :=
  {| totalLinks := 0; publicProfileLinks := 0; memberElements := 0;
     memberValueElements := 0; sampleLinks := []; allClasses := [] |}.

Definition answer (site : Site) (w : World) {T} (c : Call T) : T * World :=
  match c in Call T0 return T0 * World with
  | Goto url _ => (tt, {| clock := clock w; selected := selected w; location := url |})
  | SelectOptions => (siteOptions site, w)
  | ChooseOption v => (tt, {| clock := clock w; selected := v; location := location w |})
  | AnchorHrefs => (siteHrefs site (selected w), w)
  | Content => (js "<html></html>", w)
  | Title => (js "Member Directory", w)
  | Url => (location w, w)
  | PageInfo => (noInfo, w)
  | ProfileDocument => (siteProfile site (location w), w)
  | Launch | NewPage | SetDefaultTimeout _ | SetUserAgent _
  | WaitForSelector _ _ | Screenshot _ _ | ScrollTo _ | BrowserClose
  | WriteRecords _ | GetClient | ValuesClear _ | ValuesUpdate _ _ => (tt, w)
  end.

(** The call number [clock w] rejects when the site says so. *)
#[export] Instance oracle (site : Site) : Oracle World :=
  fun T c w =>
    let w1 := {| clock := S (clock w); selected := selected w; location := location w |} in
    if rejects site (clock w)
    then (Throws {| message := js "Navigation timeout" |}, w1)
    else let (a, w2) := answer site w1 c in (Returns a, w2).

Definition start : Store World :=
  {| world := {| clock := 0; selected := []; location := [] |};
     allMemberLinks := []; members := [] |}.

Definition linkA : jsstring := js "https://osa.example/PublicProfile/1".
Definition linkB : jsstring := js "https://osa.example/PublicProfile/2".
Definition linkC : jsstring := js "https://osa.example/PublicProfile/3".

(** Options ["10"; "25"] showing the links A, B and then B, C, next to a
    link that is no profile. *)
Definition directory (rejects : nat -> bool) : Site :=
  {| siteOptions := Some [js "10"; js "25"];
     siteHrefs := fun v =>
       if strictEq v (js "10") then [js "https://osa.example/about"; linkA; linkB]
       else if strictEq v (js "25") then [linkB; js ""; linkC]
       else [];
     siteProfile := fun _ => Samples.acmeProfile;
     rejects := rejects |}.

(** A directory without the pagination control. *)
Definition emptyDirectory (rejects : nat -> bool) : Site :=
  {| siteOptions := None;
     siteHrefs := fun _ => [];
     siteProfile := fun _ => Samples.acmeProfile;
     rejects := rejects |}.

Definition never (n : nat) : bool := false.
Definition only (k n : nat) : bool := (n =? k)%nat.
Definition from (k n : nat) : bool := (k <=? n)%nat.

Definition threeAcmeRecords : list MemberRecord :=
  [Samples.acmeRecord; Samples.acmeRecord; Samples.acmeRecord].

End Stub.

(** ** The columns of the two exports *)

Module Columns.

(** Lines 24-36: one entry of the [header] option of the CSV writer. *)
Record Column := { columnId : jsstring; columnTitle : jsstring }.

Definition csvHeader : list Column :=
  [ {| columnId := js "company"; columnTitle := js "Company Name" |};
    {| columnId := js "contact"; columnTitle := js "Contact Name" |};
    {| columnId := js "phone"; columnTitle := js "Phone" |};
    {| columnId := js "email"; columnTitle := js "Email" |};
    {| columnId := js "city"; columnTitle := js "City" |};
    {| columnId := js "province"; columnTitle := js "Province" |};
    {| columnId := js "website"; columnTitle := js "Website" |};
    {| columnId := js "memberType"; columnTitle := js "Member Type" |} ].

(** [record[key]] on the object literal of lines 245-254. *)
Definition getProperty (key : jsstring) (row : MemberRecord) : jsval :=
  if strictEq key (js "company") then company row
  else if strictEq key (js "contact") then contact row
  else if strictEq key (js "phone") then phone row
  else if strictEq key (js "email") then email row
  else if strictEq key (js "city") then city row
  else if strictEq key (js "province") then province row
  else if strictEq key (js "website") then website row
  else if strictEq key (js "memberType") then memberType row
  else JUndefined.

End Columns.
Export Columns.

(** ** More readings of a run's events *)

Module Observed.

(** The document of a [page.evaluate] on a profile page that resolved. *)
Definition extractedDoc (ev : Event) : option Document :=
  match ev with
  | @Called T c r =>
      match c in Call T0 return result T0 -> option Document with
      | ProfileDocument =>
          fun r => match r with
                   | Returns doc => Some doc
                   | Throws _ => None
                   end
      | _ => fun _ => None
      end r
  | _ => None
  end.

Definition extractedDocs (evs : list Event) : list Document := omap extractedDoc evs.

(** The message of a [console.error] of the profile loop. *)
Definition memberError (ev : Event) : option jsstring :=
  match ev with
  | Logged (MemberError _ msg) => Some msg
  | _ => None
  end.

Definition memberErrors (evs : list Event) : list jsstring := omap memberError evs.

(** The argument of a call of [csvWriter.writeRecords]. *)
Definition writtenRecord (ev : Event) : option (list MemberRecord) :=
  match ev with
  | Called c _ => match c with WriteRecords rows => Some rows | _ => None end
  | _ => None
  end.

Definition writtenRecords (evs : list Event) : list (list MemberRecord) :=
  omap writtenRecord evs.

(** The calls of the sheets client, without their outcome. *)
Inductive SheetCall :=
| Authenticate
| Clear (range : jsstring)
| Update (range : jsstring) (values : list (list jsval)).

Definition sheetCall (ev : Event) : option SheetCall :=
  match ev with
  | Called c _ =>
      match c with
      | GetClient => Some Authenticate
      | ValuesClear range => Some (Clear range)
      | ValuesUpdate range values => Some (Update range values)
      | _ => None
      end
  | _ => None
  end.

Definition sheetCalls (evs : list Event) : list SheetCall := omap sheetCall evs.

(** What [saveToGoogleSheet] asks of the sheets client when nothing fails. *)
Definition sheetPlan (rows : list MemberRecord) : list SheetCall :=
  [Authenticate; Clear (js "A:Z"); Update (js "A1") (headers :: map rowValues rows)].

(** The values of a [values.update] call. *)
Definition sheetUpdate (ev : Event) : option (list (list jsval)) :=
  match ev with
  | Called c _ => match c with ValuesUpdate _ values => Some values | _ => None end
  | _ => None
  end.

Definition sheetUpdates (evs : list Event) : list (list (list jsval)) :=
  omap sheetUpdate evs.

(** A [browser.close()] that resolved. *)
Definition isSuccessfulClose (ev : Event) : bool :=
  match ev with
  | Called c r =>
      match c, r with
      | BrowserClose, Returns _ => true
      | _, _ => false
      end
  | _ => false
  end.

Definition successfulCloses (evs : list Event) : nat :=
  length (List.filter isSuccessfulClose evs).

(** The neighbour [getText] reads the value from. *)
Definition neighbourOf (e : located) : option node :=
  match nextElementSibling e with
  | Some n => Some n
  | None => parentNextElementSibling e
  end.

(** A label match that has a neighbour to read. *)
Definition usable (label : jsstring) (e : located) : bool :=
  matchesLabel label e && match neighbourOf e with Some _ => true | None => false end.

Definition extractsNothing (ev : Event) : bool :=
  match extractedDoc ev with None => true | Some _ => false end.
Definition writesNoRecords (ev : Event) : bool :=
  match writtenRecord ev with None => true | Some _ => false end.
Definition updatesNoSheet (ev : Event) : bool :=
  match sheetUpdate ev with None => true | Some _ => false end.
Definition notSuccessfulClose (ev : Event) : bool := negb (isSuccessfulClose ev).

(** The option values the pagination control presented: what the read of
    [select.options] resolved to, [[]] when the select was missing. *)
Definition offeredOption (ev : Event) : option (list jsstring) :=
  match ev with
  | @Called T c r =>
      match c in Call T0 return result T0 -> option (list jsstring) with
      | SelectOptions =>
          fun r => match r with
                   | Returns found => Some (default [] found)
                   | Throws _ => None
                   end
      | _ => fun _ => None
      end r
  | _ => None
  end.

Definition offeredOptions (evs : list Event) : list (list jsstring) := omap offeredOption evs.

Definition offersNothing (ev : Event) : bool :=
  match offeredOption ev with None => true | Some _ => false end.

(** A call of [browser.newPage()]. *)
Definition isNewPage (ev : Event) : bool :=
  match ev with
  | Called c _ => match c with NewPage => true | _ => false end
  | _ => false
  end.

Definition newPages (evs : list Event) : nat := length (List.filter isNewPage evs).

Definition notNewPage (ev : Event) : bool := negb (isNewPage ev).

End Observed.
Export Observed.

(** * Properties *)

(** ** Facts about [trim] *)

Lemma trimStart_head s c : head (trimStart s) = Some c -> isWhiteSpace c = false.
Proof.
  induction s as [|d s IH]; simpl; [discriminate|].
  destruct (isWhiteSpace d) eqn:E; [exact IH|].
  simpl. intros [= <-]. exact E.
Qed.

Lemma trimStart_fixed s :
  (forall c, head s = Some c -> isWhiteSpace c = false) -> trimStart s = s.
Proof.
  destruct s as [|d s]; simpl; [reflexivity|].
  intros H. rewrite (H d eq_refl). reflexivity.
Qed.

Lemma trimStart_suffix s : exists ws, s = ws ++ trimStart s /\ forallb isWhiteSpace ws = true.
Proof.
  induction s as [|d s [ws [E W]]]; simpl.
  - exists []. split; reflexivity.
  - destruct (isWhiteSpace d) eqn:D.
    + exists (d :: ws). simpl. rewrite D, W. split; [congruence|reflexivity].
    + exists []. split; reflexivity.
Qed.

Lemma trimStart_last s c : last (trimStart s) = Some c -> last s = Some c.
Proof.
  destruct (trimStart_suffix s) as [ws [E _]].
  intros H. rewrite E. rewrite last_app, H. reflexivity.
Qed.

Lemma head_rev (s : jsstring) : head (rev s) = last s.
Proof.
  induction s as [|d s IH] using rev_ind; [reflexivity|].
  rewrite rev_app_distr, last_snoc. reflexivity.
Qed.

Lemma last_rev (s : jsstring) : last (rev s) = head s.
Proof. rewrite <- head_rev, rev_involutive. reflexivity. Qed.

Lemma trimEnd_last s c : last (trimEnd s) = Some c -> isWhiteSpace c = false.
Proof. unfold trimEnd. rewrite last_rev. apply trimStart_head. Qed.

Lemma trimEnd_head s c : head (trimEnd s) = Some c -> head s = Some c.
Proof.
  unfold trimEnd. rewrite head_rev. intros H.
  apply trimStart_last in H. rewrite last_rev in H. exact H.
Qed.

Lemma trimEnd_fixed s :
  (forall c, last s = Some c -> isWhiteSpace c = false) -> trimEnd s = s.
Proof.
  intros H. unfold trimEnd. rewrite trimStart_fixed.
  - apply rev_involutive.
  - intros c Hc. rewrite head_rev in Hc. auto.
Qed.

Lemma trim_trimmed s : trimmed (trim s).
Proof.
  unfold trim. split; intros c H.
  - apply trimEnd_head in H. revert H. apply trimStart_head.
  - revert H. apply trimEnd_last.
Qed.

Lemma trimmed_trim s : trimmed s -> trim s = s.
Proof.
  intros [Hh Hl]. unfold trim.
  rewrite (trimStart_fixed s Hh). apply trimEnd_fixed, Hl.
Qed.

Lemma trim_idempotent s : trim (trim s) = trim s.
Proof. apply trimmed_trim, trim_trimmed. Qed.

Lemma trimmed_nil : trimmed [].
Proof. split; intros c; discriminate. Qed.

Lemma trimEnd_snoc_space s c : isWhiteSpace c = true -> trimEnd (s ++ [c]) = trimEnd s.
Proof.
  intros H. unfold trimEnd. rewrite rev_app_distr. simpl. rewrite H. reflexivity.
Qed.

Lemma trim_snoc_space s c : trimmed s -> isWhiteSpace c = true -> trim (s ++ [c]) = s.
Proof.
  intros [Hh Hl] Hc. unfold trim. destruct s as [|d s].
  - simpl. rewrite Hc. reflexivity.
  - rewrite trimStart_fixed.
    + rewrite trimEnd_snoc_space by exact Hc. apply trimEnd_fixed, Hl.
    + simpl. intros ? [= <-]. apply Hh. reflexivity.
Qed.

Lemma trim_cons_space s c : trimmed s -> isWhiteSpace c = true -> trim (c :: s) = s.
Proof.
  intros Hs Hc. unfold trim. simpl. rewrite Hc. apply trimmed_trim, Hs.
Qed.

Lemma trimmed_join a c b :
  trimmed a -> trimmed b -> a <> [] -> b <> [] -> trimmed (a ++ c :: b).
Proof.
  intros [Ha _] [_ Hb] Na Nb. split; intros d H.
  - destruct a as [|x a]; [congruence|]. apply Ha. exact H.
  - apply Hb. destruct b as [|y b]; [congruence|].
    rewrite last_app in H. rewrite last_cons in H.
    destruct (last (y :: b)) eqn:E; [exact H|].
    apply last_None in E. discriminate.
Qed.


(** ** Field Extractor *)

Section ExtractorFacts.

Import Samples.

Example acme_extracted : memberInfo acmeProfile = acmeRecord.
Proof. vm_compute. reflexivity. Qed.

Example two_cities_first_wins :
  city (memberInfo twoCitiesProfile) = JString (js "Ottawa").
Proof. vm_compute. reflexivity. Qed.

Lemma or_empty_string s : JString s ||| JString [] = JString s.
Proof.
  unfold js_or. simpl. destruct (bool_decide (s = [])) eqn:E; simpl; [|reflexivity].
  apply bool_decide_eq_true in E. subst. reflexivity.
Qed.

Lemma getText_or_empty label d : getText label d ||| JString [] = getText label d.
Proof. apply or_empty_string. Qed.

Lemma scanLabels_trimmed label l : trimmed (scanLabels label l).
Proof.
  induction l as [|e l IH]; simpl; [apply trimmed_nil|].
  destruct (matchesLabel label e); [|exact IH].
  destruct (nextElementSibling e); [apply trim_trimmed|].
  destruct (parentNextElementSibling e); [apply trim_trimmed|exact IH].
Qed.

Lemma scanLabels_absent label l :
  existsb (matchesLabel label) l = false -> scanLabels label l = [].
Proof.
  induction l as [|e l IH]; simpl; [reflexivity|].
  intros H. apply orb_false_iff in H as [He Hl]. rewrite He. auto.
Qed.

Lemma scanLabels_first label pre e post :
  existsb (matchesLabel label) pre = false ->
  matchesLabel label e = true ->
  scanLabels label (pre ++ e :: post) =
  match nextElementSibling e with
  | Some n => trim (textContent n)
  | None =>
      match parentNextElementSibling e with
      | Some p => trim (textContent p)
      | None => scanLabels label post
      end
  end.
Proof.
  intros Hpre He. induction pre as [|x pre IH]; simpl.
  - rewrite He. reflexivity.
  - simpl in Hpre. apply orb_false_iff in Hpre as [Hx Hpre].
    rewrite Hx. auto.
Qed.

Lemma companyOf_cases d :
  companyOf d =
  JString
    (match querySelector (js "h3") d with
     | Some h3 =>
         if bool_decide (trim (textContent h3) = []) then
           match querySelector (js "h2") d with
           | Some h2 => trim (textContent h2)
           | None => []
           end
         else trim (textContent h3)
     | None =>
         match querySelector (js "h2") d with
         | Some h2 => trim (textContent h2)
         | None => []
         end
     end).
Proof.
  unfold companyOf, headingText.
  destruct (querySelector (js "h3") d) as [h3|];
    destruct (querySelector (js "h2") d) as [h2|]; unfold js_or; simpl;
    repeat match goal with
           | |- context [bool_decide (?a = [])] =>
               let E := fresh "E" in
               destruct (bool_decide (a = [])) eqn:E; simpl;
               try (apply bool_decide_eq_true in E; rewrite ?E)
           end; try reflexivity.
Qed.

End ExtractorFacts.

Lemma labelled_field_trimmed label d :
  exists s, getText label d ||| JString [] = JString s /\ trimmed s.
Proof.
  exists (scanLabels label (querySelectorAllStar d)). split.
  - apply getText_or_empty.
  - apply scanLabels_trimmed.
Qed.

(** C3. The contact field is the trim of the first and last name joined by
    one space: for arbitrary strings, at the three degenerate inputs of the
    specification, and for the names the extractor reads from any profile
    document, where the names are themselves trimmed, so that an empty name
    leaves exactly the other one. *)
Theorem contact_is_trimmed_join :
  (forall first last : jsstring,
      contactOf (JString first) (JString last)
      = JString (trim (first ++ js " " ++ last))) /\
  contactOf (JString (js "Jane")) (JString (js "")) = JString (js "Jane") /\
  contactOf (JString (js "")) (JString (js "Doe")) = JString (js "Doe") /\
  contactOf (JString (js "")) (JString (js "")) = JString (js "") /\
  (forall d : Document,
      exists first last : jsstring,
        firstNameOf d = JString first /\
        lastNameOf d = JString last /\
        contact (memberInfo d) = JString (trim (first ++ js " " ++ last)) /\
        (last = [] -> contact (memberInfo d) = JString first) /\
        (first = [] -> contact (memberInfo d) = JString last) /\
        (first <> [] -> last <> [] ->
         contact (memberInfo d) = JString (first ++ js " " ++ last))).
Proof.
  split; [reflexivity|].
  split; [vm_compute; reflexivity|].
  split; [vm_compute; reflexivity|].
  split; [vm_compute; reflexivity|].
  intros d.
  destruct (labelled_field_trimmed (js "First name") d) as [first [Ef Tf]].
  destruct (labelled_field_trimmed (js "Last name") d) as [last [El Tl]].
  exists first, last. unfold firstNameOf, lastNameOf.
  assert (Ec : contact (memberInfo d) = JString (trim (first ++ js " " ++ last))).
  { unfold memberInfo, contactOf, firstNameOf, lastNameOf. simpl contact.
    rewrite Ef, El. reflexivity. }
  rewrite Ec. repeat split; try assumption.
  - intros ->. f_equal. change (js " " ++ []) with [32%N].
    apply trim_snoc_space; [exact Tf|reflexivity].
  - intros ->. f_equal. change ([] ++ js " " ++ last) with (32%N :: last).
    apply trim_cons_space; [exact Tl|reflexivity].
  - intros Nf Nl. f_equal. change (js " " ++ last) with (32%N :: last).
    apply trimmed_trim, trimmed_join; assumption.
Qed.

(** C4. The extractor is a total function whose eight fields are all
    strings. Each labelled field is the result of [getText]: the trimmed
    text of the next element sibling of the first element, in document
    order, whose trimmed text is the label, or of the parent's next element
    sibling when the element has no next element sibling; and the empty
    string when no element carries the label. *)
Theorem extractor_label_or_empty (d : Document) :
  (is_string (company (memberInfo d)) /\ is_string (contact (memberInfo d)) /\
   is_string (phone (memberInfo d)) /\ is_string (email (memberInfo d)) /\
   is_string (city (memberInfo d)) /\ is_string (province (memberInfo d)) /\
   is_string (website (memberInfo d)) /\ is_string (memberType (memberInfo d))) /\
  (firstNameOf d = getText (js "First name") d /\
   lastNameOf d = getText (js "Last name") d /\
   email (memberInfo d) = getText (js "Email") d /\
   city (memberInfo d) = getText (js "City") d /\
   province (memberInfo d) = getText (js "Province/State") d /\
   website (memberInfo d) = getText (js "Web Site") d) /\
  (forall label pre e post,
      querySelectorAllStar d = pre ++ e :: post ->
      existsb (matchesLabel label) pre = false ->
      matchesLabel label e = true ->
      (forall n, nextElementSibling e = Some n ->
                 getText label d = JString (trim (textContent n))) /\
      (forall p, nextElementSibling e = None ->
                 parentNextElementSibling e = Some p ->
                 getText label d = JString (trim (textContent p)))) /\
  (forall label,
      existsb (matchesLabel label) (querySelectorAllStar d) = false ->
      getText label d = JString []).
Proof.
  split; [|split; [|split]].
  - unfold memberInfo; simpl. rewrite !getText_or_empty, companyOf_cases.
    unfold is_string, contactOf, getText. repeat split; eexists; reflexivity.
  - unfold memberInfo, firstNameOf, lastNameOf; simpl.
    rewrite !getText_or_empty. repeat split; reflexivity.
  - intros label pre e post Hd Hpre He. unfold getText. rewrite Hd.
    rewrite (scanLabels_first label pre e post Hpre He).
    split.
    + intros n ->. reflexivity.
    + intros p -> ->. reflexivity.
  - intros label H. unfold getText. rewrite scanLabels_absent by exact H.
    reflexivity.
Qed.

(** C5, as amended. The company is the trimmed text of the first [h3] when
    that text is not empty; otherwise the trimmed text of the first [h2];
    and the empty string when there is no [h2] either. *)
Theorem company_from_h3_then_h2 (d : Document) :
  company (memberInfo d) =
  JString
    (match querySelector (js "h3") d with
     | Some h3 =>
         if bool_decide (trim (textContent h3) = []) then
           match querySelector (js "h2") d with
           | Some h2 => trim (textContent h2)
           | None => []
           end
         else trim (textContent h3)
     | None =>
         match querySelector (js "h2") d with
         | Some h2 => trim (textContent h2)
         | None => []
         end
     end).
Proof. unfold memberInfo; simpl. apply companyOf_cases. Qed.

(** C5 as stated fails: on a page whose [h3] holds only white space the
    company comes from the [h2], whichever of [h1] and [h3] is read as the
    first-level heading. *)
Lemma company_heading_counterexample :
  company (memberInfo Samples.blankHeadingProfile) = JString (js "Acme Signs") /\
  company (memberInfo Samples.blankHeadingProfile)
  <> specCompany (js "h3") (js "h2") Samples.blankHeadingProfile /\
  company (memberInfo Samples.blankHeadingProfile)
  <> specCompany (js "h1") (js "h2") Samples.blankHeadingProfile.
Proof. vm_compute. repeat split; discriminate. Qed.

(** ** Runs of the script *)

(** Case analysis on the answer of the next call. *)
Ltac answer :=
  match goal with
  | |- context [respond ?T ?c ?w] =>
      let r := fresh "r" in
      let w' := fresh "w" in
      destruct (respond T c w) as [r w']; destruct r; simpl
  end.

Ltac run_script :=
  unfold bind, tryCatch, call, sleep, log, ret, throw,
    getLinks, setLinks, getMembers, setMembers; simpl.

Section RunFacts.

Context {W : Type} `{Oracle W}.

Lemma bind_returns {A B} (m : M W A) (k : A -> M W B) s a :
  outcome (m s) = Returns a ->
  bind m k s =
  {| outcome := outcome (k a (final (m s)));
     final := final (k a (final (m s)));
     events := events (m s) ++ events (k a (final (m s))) |}.
Proof.
  intros E. unfold bind. destruct (m s) as [o s1 evs1]. simpl in *. subst o.
  destruct (k a s1); reflexivity.
Qed.

Lemma bind_throws {A B} (m : M W A) (k : A -> M W B) s e :
  outcome (m s) = Throws e ->
  bind m k s = {| outcome := Throws e; final := final (m s); events := events (m s) |}.
Proof.
  intros E. unfold bind. destruct (m s) as [o s1 evs1]. simpl in *. subst o.
  reflexivity.
Qed.

Lemma tryCatch_returns {A} (m : M W A) h s a :
  outcome (m s) = Returns a -> tryCatch m h s = m s.
Proof.
  intros E. unfold tryCatch. destruct (m s) as [o s1 evs1]. simpl in *. subst o.
  reflexivity.
Qed.

Lemma tryCatch_throws {A} (m : M W A) h s e :
  outcome (m s) = Throws e ->
  tryCatch m h s =
  {| outcome := outcome (h e (final (m s)));
     final := final (h e (final (m s)));
     events := events (m s) ++ events (h e (final (m s))) |}.
Proof.
  intros E. unfold tryCatch. destruct (m s) as [o s1 evs1]. simpl in *. subst o.
  destruct (h e s1); reflexivity.
Qed.

Lemma outcome_bind {A B} (m : M W A) (k : A -> M W B) s :
  outcome (bind m k s)
  = match outcome (m s) with
    | Returns a => outcome (k a (final (m s)))
    | Throws e => Throws e
    end.
Proof.
  unfold bind. destruct (m s) as [[a|e] s1 evs1]; simpl; [|reflexivity].
  destruct (k a s1); reflexivity.
Qed.

Lemma final_bind {A B} (m : M W A) (k : A -> M W B) s :
  final (bind m k s)
  = match outcome (m s) with
    | Returns a => final (k a (final (m s)))
    | Throws e => final (m s)
    end.
Proof.
  unfold bind. destruct (m s) as [[a|e] s1 evs1]; simpl; [|reflexivity].
  destruct (k a s1); reflexivity.
Qed.

Lemma events_bind {A B} (m : M W A) (k : A -> M W B) s :
  events (bind m k s)
  = events (m s) ++ match outcome (m s) with
                    | Returns a => events (k a (final (m s)))
                    | Throws e => []
                    end.
Proof.
  unfold bind. destruct (m s) as [[a|e] s1 evs1]; simpl.
  - destruct (k a s1); reflexivity.
  - rewrite app_nil_r. reflexivity.
Qed.

Lemma outcome_tryCatch {A} (m : M W A) h s :
  outcome (tryCatch m h s)
  = match outcome (m s) with
    | Returns a => Returns a
    | Throws e => outcome (h e (final (m s)))
    end.
Proof.
  unfold tryCatch. destruct (m s) as [[a|e] s1 evs1]; simpl; [reflexivity|].
  destruct (h e s1); reflexivity.
Qed.

Lemma final_tryCatch {A} (m : M W A) h s :
  final (tryCatch m h s)
  = match outcome (m s) with
    | Returns a => final (m s)
    | Throws e => final (h e (final (m s)))
    end.
Proof.
  unfold tryCatch. destruct (m s) as [[a|e] s1 evs1]; simpl; [reflexivity|].
  destruct (h e s1); reflexivity.
Qed.

Lemma events_tryCatch {A} (m : M W A) h s :
  events (tryCatch m h s)
  = events (m s) ++ match outcome (m s) with
                    | Returns a => []
                    | Throws e => events (h e (final (m s)))
                    end.
Proof.
  unfold tryCatch. destruct (m s) as [[a|e] s1 evs1]; simpl.
  - rewrite app_nil_r. reflexivity.
  - destruct (h e s1); reflexivity.
Qed.

Lemma outcome_call {T} (c : Call T) s : outcome (call c s) = fst (respond T c (world s)).
Proof. unfold call. destruct (respond T c (world s)); reflexivity. Qed.

Lemma events_call {T} (c : Call T) s :
  events (call c s) = [Called c (fst (respond T c (world s)))].
Proof. unfold call. destruct (respond T c (world s)); reflexivity. Qed.

(** *** Profile Walker *)

Lemma visit_run i total link (s : Store W) :
  exists v : Visit,
    outcome (visit i total link s) = Returns tt /\
    events (visit i total link s) = visitEvents i total link v /\
    allMemberLinks (final (visit i total link s)) = allMemberLinks s /\
    members (final (visit i total link s)) = members s ++ option_list (visitRecord v).
Proof.
  unfold visit. run_script.
  answer.
  - destruct a. answer.
    + answer.
      * destruct a0. exists (Extracted a (Returns tt)). repeat split.
      * exists (Extracted a (Throws e)). repeat split.
    + exists (ExtractionFailed e). rewrite app_nil_r. repeat split.
  - exists (NavigationFailed e). rewrite app_nil_r. repeat split.
Qed.

Lemma walk_run (links : list jsstring) : forall i total (s : Store W),
  exists visits : list Visit,
    length visits = length links /\
    outcome (walk i total links s) = Returns tt /\
    events (walk i total links s) = walkEvents i total links visits /\
    allMemberLinks (final (walk i total links s)) = allMemberLinks s /\
    members (final (walk i total links s)) = members s ++ omap visitRecord visits.
Proof.
  induction links as [|link links IH]; intros i total s.
  - exists []. simpl. rewrite app_nil_r. repeat split.
  - destruct (visit_run i total link s) as [v [Ho [He [Hl Hm]]]].
    destruct (IH (S i) total (final (visit i total link s)))
      as [vs [Hlen [Ho' [He' [Hl' Hm']]]]].
    exists (v :: vs). simpl walk. rewrite (bind_returns _ _ _ _ Ho). simpl.
    rewrite Hlen, Ho', He, He', Hl', Hl, Hm', Hm.
    repeat split. rewrite <- app_assoc. f_equal.
    destruct v; reflexivity.
Qed.

Lemma profileVisits_app evs evs' :
  profileVisits (evs ++ evs') = profileVisits evs ++ profileVisits evs'.
Proof. apply omap_app. Qed.

Lemma profileVisits_visit i total link v :
  profileVisits (visitEvents i total link v) = [link].
Proof. destruct v as [e|e|doc [[]|e]]; reflexivity. Qed.

Lemma profileVisits_walk links : forall i total visits,
  length visits = length links ->
  profileVisits (walkEvents i total links visits) = links.
Proof.
  induction links as [|link links IH]; intros i total [|v vs] Hlen;
    try discriminate; [reflexivity|].
  cbn [walkEvents]. rewrite profileVisits_app, profileVisits_visit.
  simpl. f_equal. apply IH. simpl in Hlen. congruence.
Qed.

Lemma length_omap_le {A B} (f : A -> option B) (l : list A) :
  length (omap f l) <= length l.
Proof.
  induction l as [|x l IH]; simpl; [lia|].
  destruct (f x); simpl; unfold omap in *; lia.
Qed.

End RunFacts.

(** ** Link collection *)

Section LinkFacts.

Implicit Types (l acc : list jsstring) (x y : jsstring).

Lemma filter_comm {A} (p q : A -> bool) (l : list A) :
  List.filter p (List.filter q l) = List.filter q (List.filter p l).
Proof.
  induction l as [|a l IH]; simpl; [reflexivity|].
  destruct (p a) eqn:P, (q a) eqn:Q; simpl; rewrite ?P, ?Q, IH; reflexivity.
Qed.

Lemma filter_idem {A} (p : A -> bool) (l : list A) :
  List.filter p (List.filter p l) = List.filter p l.
Proof.
  induction l as [|a l IH]; simpl; [reflexivity|].
  destruct (p a) eqn:P; simpl; rewrite ?P, IH; reflexivity.
Qed.

Lemma firstOccurrences_unfold x l :
  firstOccurrences (x :: l) = x :: List.filter (isNot x) (firstOccurrences l).
Proof. reflexivity. Qed.

Lemma isNot_self x : isNot x x = false.
Proof. unfold isNot, strictEq. rewrite bool_decide_eq_true_2; reflexivity. Qed.

Lemma isNot_other x y : y <> x -> isNot x y = true.
Proof. intros N. unfold isNot, strictEq. rewrite bool_decide_eq_false_2; auto. Qed.

Lemma firstOccurrences_filter x l :
  firstOccurrences (List.filter (isNot x) l) = List.filter (isNot x) (firstOccurrences l).
Proof.
  induction l as [|y l IH]; [reflexivity|].
  rewrite firstOccurrences_unfold. simpl List.filter.
  destruct (decide (y = x)) as [->|N].
  - rewrite isNot_self, filter_idem. exact IH.
  - rewrite (isNot_other x y N), firstOccurrences_unfold, IH.
    f_equal. apply filter_comm.
Qed.

Lemma notIn_snoc_at acc x y : notIn (acc ++ [x]) y = notIn acc y && isNot x y.
Proof.
  unfold notIn, isNot, strictEq.
  rewrite (bool_decide_ext (y ∈ acc ++ [x]) (y ∈ acc \/ y = x)).
  - rewrite bool_decide_or. apply negb_orb.
  - rewrite elem_of_app, list_elem_of_singleton. reflexivity.
Qed.

Lemma notIn_snoc acc x l :
  List.filter (notIn (acc ++ [x])) l = List.filter (isNot x) (List.filter (notIn acc) l).
Proof.
  induction l as [|y l IH]; simpl; [reflexivity|].
  rewrite notIn_snoc_at.
  destruct (notIn acc y); simpl; [|exact IH].
  destruct (isNot x y); simpl; [f_equal|]; exact IH.
Qed.

Lemma pushUnique_old acc x : x ∈ acc -> pushUnique acc x = acc /\ notIn acc x = false.
Proof.
  intros I. unfold pushUnique, notIn. rewrite bool_decide_eq_true_2 by exact I.
  split; reflexivity.
Qed.

Lemma pushUnique_new acc x :
  x ∉ acc -> pushUnique acc x = acc ++ [x] /\ notIn acc x = true.
Proof.
  intros I. unfold pushUnique, notIn. rewrite bool_decide_eq_false_2 by exact I.
  split; reflexivity.
Qed.

Lemma pushUnique_fold l : forall acc,
  foldl pushUnique acc l = acc ++ firstOccurrences (List.filter (notIn acc) l).
Proof.
  induction l as [|x l IH]; intros acc; simpl.
  - rewrite app_nil_r. reflexivity.
  - destruct (decide (x ∈ acc)) as [I|I].
    + destruct (pushUnique_old acc x I) as [-> ->]. apply IH.
    + destruct (pushUnique_new acc x I) as [-> ->].
      rewrite IH, <- app_assoc, firstOccurrences_unfold. simpl. f_equal. f_equal.
      rewrite notIn_snoc. apply firstOccurrences_filter.
Qed.

Lemma filter_notIn_nil l : List.filter (notIn []) l = l.
Proof.
  induction l as [|x l IH]; [reflexivity|].
  cbn [List.filter].
  destruct (pushUnique_new [] x) as [_ ->]; [apply not_elem_of_nil|].
  f_equal. exact IH.
Qed.

Lemma pushUnique_from_nil l : foldl pushUnique [] l = firstOccurrences l.
Proof. rewrite pushUnique_fold, filter_notIn_nil. reflexivity. Qed.

Lemma elem_of_filter_bool {A} (p : A -> bool) (l : list A) a :
  a ∈ List.filter p l <-> a ∈ l /\ p a = true.
Proof. rewrite !list_elem_of_In. apply List.filter_In. Qed.

Lemma NoDup_filter_bool {A} (p : A -> bool) (l : list A) :
  NoDup l -> NoDup (List.filter p l).
Proof.
  induction 1 as [|a l Ha Hl IH]; simpl; [constructor|].
  destruct (p a); [|exact IH].
  constructor; [|exact IH].
  rewrite elem_of_filter_bool. tauto.
Qed.

Lemma NoDup_firstOccurrences l : NoDup (firstOccurrences l).
Proof.
  induction l as [|x l IH]; simpl; constructor.
  - rewrite elem_of_filter_bool. intros [_ E].
    fold (isNot x x) in E. rewrite isNot_self in E. discriminate.
  - apply NoDup_filter_bool, IH.
Qed.

Lemma elem_of_firstOccurrences l x : x ∈ firstOccurrences l <-> x ∈ l.
Proof.
  induction l as [|y l IH]; simpl; [reflexivity|].
  rewrite !elem_of_cons, elem_of_filter_bool, IH.
  destruct (decide (x = y)) as [->|N]; [tauto|].
  fold (isNot y x). rewrite (isNot_other y x N). tauto.
Qed.

End LinkFacts.

(** ** What the pieces of the script emit and keep *)

Section EmitFacts.

Context {W : Type} `{Oracle W}.
Variable P : Event -> bool.

Lemma emits_ret {A} (a : A) : emits P (ret (W:=W) a).
Proof. intros s. reflexivity. Qed.

Lemma emits_throw {A} e : emits P (throw (W:=W) (A:=A) e).
Proof. intros s. reflexivity. Qed.

Lemma emits_bind {A B} (m : M W A) (k : A -> M W B) :
  emits P m -> (forall a, emits P (k a)) -> emits P (bind m k).
Proof.
  intros Hm Hk s. unfold bind. specialize (Hm s).
  destruct (m s) as [[a|e] s1 evs1]; simpl in *; [|exact Hm].
  specialize (Hk a s1). destruct (k a s1) as [o s2 evs2]. simpl in *.
  rewrite forallb_app, Hm. exact Hk.
Qed.

Lemma emits_tryCatch {A} (m : M W A) h :
  emits P m -> (forall e, emits P (h e)) -> emits P (tryCatch m h).
Proof.
  intros Hm Hh s. unfold tryCatch. specialize (Hm s).
  destruct (m s) as [[a|e] s1 evs1]; simpl in *; [exact Hm|].
  specialize (Hh e s1). destruct (h e s1) as [o s2 evs2]. simpl in *.
  rewrite forallb_app, Hm. exact Hh.
Qed.

Lemma emits_call {T} (c : Call T) :
  (forall r, P (Called c r) = true) -> emits P (call c).
Proof.
  intros Hc s. unfold call. destruct (respond T c (world s)) as [r w]. simpl.
  rewrite Hc. reflexivity.
Qed.

Lemma emits_sleep ms : P (Slept ms) = true -> emits P (sleep (W:=W) ms).
Proof. intros Hp s. simpl. rewrite Hp. reflexivity. Qed.

Lemma emits_log line : P (Logged line) = true -> emits P (log (W:=W) line).
Proof. intros Hp s. simpl. rewrite Hp. reflexivity. Qed.

Lemma emits_getLinks : emits P (getLinks (W:=W)).
Proof. intros s. reflexivity. Qed.

Lemma emits_setLinks l : emits P (setLinks (W:=W) l).
Proof. intros s. reflexivity. Qed.

Lemma emits_getMembers : emits P (getMembers (W:=W)).
Proof. intros s. reflexivity. Qed.

Lemma emits_setMembers l : emits P (setMembers (W:=W) l).
Proof. intros s. reflexivity. Qed.

End EmitFacts.

Section KeepFacts.

Context {W : Type} `{Oracle W}.

Lemma keeps_ret {A} (a : A) : keepsLinks (ret (W:=W) a).
Proof. intros s. reflexivity. Qed.

Lemma keeps_throw {A} e : keepsLinks (throw (W:=W) (A:=A) e).
Proof. intros s. reflexivity. Qed.

Lemma keeps_bind {A B} (m : M W A) (k : A -> M W B) :
  keepsLinks m -> (forall a, keepsLinks (k a)) -> keepsLinks (bind m k).
Proof.
  intros Hm Hk s. unfold bind. specialize (Hm s).
  destruct (m s) as [[a|e] s1 evs1]; simpl in *; [|exact Hm].
  specialize (Hk a s1). destruct (k a s1) as [o s2 evs2]. simpl in *.
  congruence.
Qed.

Lemma keeps_tryCatch {A} (m : M W A) h :
  keepsLinks m -> (forall e, keepsLinks (h e)) -> keepsLinks (tryCatch m h).
Proof.
  intros Hm Hh s. unfold tryCatch. specialize (Hm s).
  destruct (m s) as [[a|e] s1 evs1]; simpl in *; [exact Hm|].
  specialize (Hh e s1). destruct (h e s1) as [o s2 evs2]. simpl in *.
  congruence.
Qed.

Lemma keeps_call {T} (c : Call T) : keepsLinks (call c).
Proof.
  intros s. unfold call. destruct (respond T c (world s)) as [r w]. reflexivity.
Qed.

Lemma keeps_sleep ms : keepsLinks (sleep (W:=W) ms).
Proof. intros s. reflexivity. Qed.

Lemma keeps_log line : keepsLinks (log (W:=W) line).
Proof. intros s. reflexivity. Qed.

Lemma keeps_getLinks : keepsLinks (getLinks (W:=W)).
Proof. intros s. reflexivity. Qed.

Lemma keeps_getMembers : keepsLinks (getMembers (W:=W)).
Proof. intros s. reflexivity. Qed.

Lemma keeps_setMembers l : keepsLinks (setMembers (W:=W) l).
Proof. intros s. reflexivity. Qed.

End KeepFacts.

Create HintDb script discriminated.

#[export] Hint Resolve emits_ret emits_throw emits_getLinks emits_setLinks
  emits_getMembers emits_setMembers keeps_ret keeps_throw keeps_call keeps_sleep
  keeps_log keeps_getLinks keeps_getMembers keeps_setMembers : script.

(** Decompose a straight-line piece of the script into its steps. *)
Ltac script_steps :=
  cbv zeta;
  repeat first
    [ apply emits_bind; [|intros ?]
    | apply emits_tryCatch; [|intros ?]
    | apply keeps_bind; [|intros ?]
    | apply keeps_tryCatch; [|intros ?]
    | apply emits_call; intros ?; reflexivity
    | apply emits_sleep; reflexivity
    | apply emits_log; reflexivity
    | match goal with
      | |- emits _ (if ?b then _ else _) => destruct b
      | |- keepsLinks (if ?b then _ else _) => destruct b
      end
    | solve [auto with script] ].

Section ObservationFacts.

Lemma omap_none_forallb {A B} (f : A -> option B) (l : list A) :
  forallb (fun a => match f a with None => true | Some _ => false end) l = true ->
  omap f l = [].
Proof.
  induction l as [|a l IH]; simpl; [reflexivity|].
  destruct (f a); simpl; [discriminate|exact IH].
Qed.

Lemma filter_none_forallb {A} (p : A -> bool) (l : list A) :
  forallb (fun a => negb (p a)) l = true -> List.filter p l = [].
Proof.
  induction l as [|a l IH]; simpl; [reflexivity|].
  destruct (p a); simpl; [discriminate|exact IH].
Qed.

Lemma surfaced_app evs evs' : surfaced (evs ++ evs') = surfaced evs ++ surfaced evs'.
Proof. apply omap_app. Qed.

Lemma thrown_app evs evs' : thrown (evs ++ evs') = thrown evs ++ thrown evs'.
Proof. apply omap_app. Qed.

Lemma chosenOptions_app evs evs' :
  chosenOptions (evs ++ evs') = chosenOptions evs ++ chosenOptions evs'.
Proof. apply omap_app. Qed.

Lemma retryLogs_app evs evs' : retryLogs (evs ++ evs') = retryLogs evs ++ retryLogs evs'.
Proof. apply omap_app. Qed.

Lemma attempts_app evs evs' : attempts (evs ++ evs') = attempts evs + attempts evs'.
Proof. unfold attempts. rewrite List.filter_app, length_app. reflexivity. Qed.

Lemma launches_app evs evs' : launches (evs ++ evs') = launches evs + launches evs'.
Proof. unfold launches. rewrite List.filter_app, length_app. reflexivity. Qed.

Lemma closes_app evs evs' : closes (evs ++ evs') = closes evs + closes evs'.
Proof. unfold closes. rewrite List.filter_app, length_app. reflexivity. Qed.

End ObservationFacts.

Section Readings.

Context {W : Type} `{Oracle W} {A : Type} (m : M W A).

Lemma surfaced_none s : emits surfacesNothing m -> surfaced (events (m s)) = [].
Proof. intros E. apply omap_none_forallb, E. Qed.

Lemma profileVisits_none s : emits visitsNoProfile m -> profileVisits (events (m s)) = [].
Proof. intros E. apply omap_none_forallb, E. Qed.

Lemma chosenOptions_none s : emits choosesNoOption m -> chosenOptions (events (m s)) = [].
Proof. intros E. apply omap_none_forallb, E. Qed.

Lemma retryLogs_none s : emits logsNoRetry m -> retryLogs (events (m s)) = [].
Proof. intros E. apply omap_none_forallb, E. Qed.

Lemma thrown_none s : emits throwsNothing m -> thrown (events (m s)) = [].
Proof. intros E. apply omap_none_forallb, E. Qed.

Lemma sinkCalls_none s : emits notSinkCall m -> List.filter isSinkCall (events (m s)) = [].
Proof. intros E. apply filter_none_forallb, E. Qed.

Lemma topLevelErrors_none s :
  emits notTopLevelError m -> List.filter isTopLevelError (events (m s)) = [].
Proof. intros E. apply filter_none_forallb, E. Qed.

Lemma attempts_none s : emits notRootNavigation m -> attempts (events (m s)) = 0.
Proof. intros E. unfold attempts. rewrite filter_none_forallb; [reflexivity|apply E]. Qed.

Lemma launches_none s : emits notLaunch m -> launches (events (m s)) = 0.
Proof. intros E. unfold launches. rewrite filter_none_forallb; [reflexivity|apply E]. Qed.

Lemma closes_none s : emits notClose m -> closes (events (m s)) = 0.
Proof. intros E. unfold closes. rewrite filter_none_forallb; [reflexivity|apply E]. Qed.

End Readings.

Section ComposeFacts.

Context {W : Type} `{Oracle W}.

Lemma bind_inv {A B} (m : M W A) (k : A -> M W B) s b :
  outcome (bind m k s) = Returns b ->
  exists a,
    outcome (m s) = Returns a /\
    outcome (k a (final (m s))) = Returns b /\
    final (bind m k s) = final (k a (final (m s))) /\
    events (bind m k s) = events (m s) ++ events (k a (final (m s))).
Proof.
  unfold bind. destruct (m s) as [[a|e] s1 evs1]; simpl; [|discriminate].
  destruct (k a s1) as [o s2 evs2] eqn:Ek. simpl.
  intros Hk. exists a. rewrite Ek. repeat split. exact Hk.
Qed.

Lemma collects_quiet {A} (m : M W A) :
  keepsLinks m -> emits surfacesNothing m -> collects m.
Proof.
  intros K E s. rewrite K, (surfaced_none m s E). reflexivity.
Qed.

Lemma collects_bind {A B} (m : M W A) (k : A -> M W B) :
  collects m -> (forall a, collects (k a)) -> collects (bind m k).
Proof.
  intros Hm Hk s. unfold bind. specialize (Hm s).
  destruct (m s) as [[a|e] s1 evs1]; simpl in *; [|exact Hm].
  specialize (Hk a s1). destruct (k a s1) as [o s2 evs2]. simpl in *.
  rewrite Hk, Hm, surfaced_app, concat_app, foldl_app. reflexivity.
Qed.

Lemma collects_tryCatch {A} (m : M W A) h :
  collects m -> (forall e, collects (h e)) -> collects (tryCatch m h).
Proof.
  intros Hm Hh s. unfold tryCatch. specialize (Hm s).
  destruct (m s) as [[a|e] s1 evs1]; simpl in *; [exact Hm|].
  specialize (Hh e s1). destruct (h e s1) as [o s2 evs2]. simpl in *.
  rewrite Hh, Hm, surfaced_app, concat_app, foldl_app. reflexivity.
Qed.

Lemma propagates_bind {A B} (m : M W A) (k : A -> M W B) :
  propagates m -> (forall a, propagates (k a)) -> propagates (bind m k).
Proof.
  intros Hm Hk s. unfold bind. specialize (Hm s).
  destruct (m s) as [[a|e] s1 evs1]; simpl in *; [|exact Hm].
  specialize (Hk a s1). destruct (k a s1) as [[b|e] s2 evs2]; simpl in *;
    rewrite thrown_app, Hm; exact Hk.
Qed.

Lemma propagates_call {T} (c : Call T) : propagates (call c).
Proof.
  intros s. unfold call. destruct (respond T c (world s)) as [[a|e] w]; reflexivity.
Qed.

Lemma propagates_silent {A} (m : M W A) :
  (forall s, exists a, outcome (m s) = Returns a) -> emits throwsNothing m -> propagates m.
Proof.
  intros R E s. destruct (R s) as [a ->]. apply (thrown_none m s E).
Qed.

End ComposeFacts.

(** ** Pagination Enumerator *)

Section EnumeratorFacts.

Context {W : Type} `{Oracle W}.

Lemma processOption_collects v : collects (processOption v).
Proof.
  intros s. unfold processOption. run_script.
  answer; [|reflexivity].
  answer; [|reflexivity].
  answer; unfold addUnique; rewrite app_nil_r; reflexivity.
Qed.

Lemma forOptions_collects opts : collects (forOptions opts).
Proof.
  induction opts as [|v opts IH]; simpl.
  - intros s. reflexivity.
  - apply collects_bind; [apply processOption_collects|intros _; exact IH].
Qed.

Lemma paginationBody_collects : collects paginationBody.
Proof.
  unfold paginationBody.
  apply collects_bind; [apply collects_quiet; script_steps|intros _].
  apply collects_bind; [apply collects_quiet; script_steps|intros found].
  apply collects_bind; [apply collects_quiet; script_steps|intros _].
  apply collects_bind; [apply forOptions_collects|intros _].
  apply collects_quiet; script_steps.
Qed.

Lemma paginate_collects : collects paginate.
Proof.
  unfold paginate. apply collects_tryCatch; [apply paginationBody_collects|].
  intros e. apply collects_quiet; script_steps.
Qed.

Lemma enumerate_events s :
  events (enumerate s)
  = events (paginate {| world := world s; allMemberLinks := []; members := members s |}).
Proof. unfold enumerate, bind, setLinks. destruct (paginate _). reflexivity. Qed.

Lemma enumerate_final s :
  final (enumerate s)
  = final (paginate {| world := world s; allMemberLinks := []; members := members s |}).
Proof. unfold enumerate, bind, setLinks. destruct (paginate _). reflexivity. Qed.

Lemma enumerate_outcome s :
  outcome (enumerate s)
  = outcome (paginate {| world := world s; allMemberLinks := []; members := members s |}).
Proof. unfold enumerate, bind, setLinks. destruct (paginate _). reflexivity. Qed.

Lemma enumerate_links s :
  allMemberLinks (final (enumerate s))
  = firstOccurrences (concat (surfaced (events (enumerate s)))).
Proof.
  rewrite enumerate_final, enumerate_events, paginate_collects. simpl.
  apply pushUnique_from_nil.
Qed.

Lemma paginate_returns s : outcome (paginate s) = Returns tt.
Proof.
  unfold paginate, tryCatch, log.
  destruct (paginationBody s) as [[[]|e] s1 evs1]; reflexivity.
Qed.

Lemma processOption_chosen v s : chosenOptions (events (processOption v s)) = [v].
Proof.
  unfold processOption. run_script.
  answer; [|reflexivity].
  answer; [|reflexivity].
  answer; reflexivity.
Qed.

Lemma forOptions_chosen opts : forall s,
  chosenOptions (events (forOptions opts s)) `prefix_of` opts /\
  (outcome (forOptions opts s) = Returns tt ->
   chosenOptions (events (forOptions opts s)) = opts).
Proof.
  induction opts as [|v opts IH]; intros s.
  - split; [apply prefix_nil|reflexivity].
  - cbn [forOptions].
    destruct (outcome (processOption v s)) as [[]|e] eqn:E.
    + rewrite (bind_returns _ _ _ _ E). cbn [outcome events].
      rewrite chosenOptions_app, processOption_chosen.
      destruct (IH (final (processOption v s))) as [Hp He]. split.
      * apply prefix_cons, Hp.
      * intros Ho. simpl. f_equal. apply He, Ho.
    + rewrite (bind_throws _ _ _ _ E). cbn [outcome events].
      rewrite processOption_chosen. split; [|discriminate].
      apply prefix_cons, prefix_nil.
Qed.

Lemma processOption_propagates v : propagates (processOption v).
Proof.
  unfold processOption.
  repeat first
    [ apply propagates_call
    | apply propagates_bind; [|intros ?]
    | apply propagates_silent; [intros s; eexists; reflexivity|script_steps] ].
Qed.

Lemma forOptions_propagates opts : propagates (forOptions opts).
Proof.
  induction opts as [|v opts IH]; simpl.
  - intros s. reflexivity.
  - apply propagates_bind; [apply processOption_propagates|intros _; exact IH].
Qed.

Lemma paginationBody_propagates : propagates paginationBody.
Proof.
  unfold paginationBody.
  repeat first
    [ apply propagates_call
    | apply forOptions_propagates
    | apply propagates_bind; [|intros ?]
    | apply propagates_silent; [intros s; eexists; reflexivity|script_steps] ].
Qed.

Lemma paginate_failure_logged s e :
  last (thrown (events (paginate s))) = Some e ->
  last (events (paginate s)) = Some (Logged (PaginationError (message e))).
Proof.
  unfold paginate. pose proof (paginationBody_propagates s) as P.
  destruct (outcome (paginationBody s)) as [[]|e'] eqn:E.
  - rewrite (tryCatch_returns _ _ _ _ E), P. discriminate.
  - rewrite (tryCatch_throws _ _ _ _ E). cbn [outcome events log].
    rewrite thrown_app, P. simpl. intros [= ->].
    apply last_snoc.
Qed.

Lemma pushUnique_NoDup links link : NoDup links -> NoDup (pushUnique links link).
Proof.
  intros N. unfold pushUnique. case_bool_decide; [exact N|].
  apply NoDup_app. repeat split; [exact N| |apply NoDup_singleton].
  intros x Hx Hx'. apply list_elem_of_singleton in Hx'. subst. contradiction.
Qed.

End EnumeratorFacts.

(** ** One attempt *)

Section AttemptFacts.

Context {W : Type} `{Oracle W}.

Lemma walk_emits P i total links :
  (forall i link, emits P (visit (W:=W) i total link)) -> emits P (walk i total links).
Proof.
  intros Hv. revert i. induction links as [|link links IH]; intros i; simpl.
  - apply emits_ret.
  - apply emits_bind; [apply Hv|intros _; apply IH].
Qed.

Lemma forOptions_emits P opts :
  (forall v, emits P (processOption (W:=W) v)) -> emits P (forOptions opts).
Proof.
  intros Hv. induction opts as [|v opts IH]; simpl.
  - apply emits_ret.
  - apply emits_bind; [apply Hv|intros _; apply IH].
Qed.

Lemma walk_keeps i total links : keepsLinks (walk (W:=W) i total links).
Proof.
  revert i. induction links as [|link links IH]; intros i; simpl.
  - apply keeps_ret.
  - apply keeps_bind; [unfold visit; script_steps|intros _; apply IH].
Qed.

Lemma diagnostics_keeps : keepsLinks (diagnostics (W:=W)).
Proof. unfold diagnostics. script_steps. Qed.

Lemma diagnostics_surfaces_nothing : emits surfacesNothing (diagnostics (W:=W)).
Proof. unfold diagnostics. script_steps. Qed.

Lemma diagnostics_visits_nothing : emits visitsNoProfile (diagnostics (W:=W)).
Proof. unfold diagnostics. script_steps. Qed.

Lemma enumerate_visits_nothing : emits visitsNoProfile (enumerate (W:=W)).
Proof.
  unfold enumerate, paginate, paginationBody. script_steps.
  apply forOptions_emits. intros v. unfold processOption. script_steps.
Qed.

Lemma visit_emits P i total link :
  (forall r, P (Called (Goto link 30000) r) = true) ->
  (forall r, P (Called ProfileDocument r) = true) ->
  (forall r, P (Called (Screenshot (ShotMember (S i)) false) r) = true) ->
  P (Slept 2000) = true ->
  (forall line, P (Logged line) = true) ->
  emits P (visit (W:=W) i total link).
Proof.
  intros Hg Hd Hs Hz Hl. unfold visit.
  repeat first
    [ apply emits_bind; [|intros ?]
    | apply emits_tryCatch; [|intros ?]
    | apply emits_call; assumption
    | apply emits_sleep; assumption
    | apply emits_log; apply Hl
    | solve [auto with script] ].
Qed.

Lemma visitAll_emits P links :
  (forall i link, emits P (visit (W:=W) i (length links) link)) ->
  (forall r, P (Called BrowserClose r) = true) ->
  emits P (visitAll links).
Proof.
  intros Hv Hc. unfold visitAll.
  apply emits_bind; [apply emits_setMembers|intros _].
  apply emits_bind; [apply walk_emits, Hv|intros _].
  apply emits_bind; [apply emits_call, Hc|intros _].
  apply emits_getMembers.
Qed.

Lemma walkPhase_emits P :
  emits P (noLinks (W:=W)) ->
  (forall links, emits P (visitAll (W:=W) links)) ->
  (forall line, P (Logged line) = true) ->
  emits P (walkPhase (W:=W)).
Proof.
  intros Hn Hv Hl. unfold walkPhase.
  apply emits_bind; [apply emits_getLinks|intros links].
  apply emits_bind; [apply emits_log, Hl|intros _].
  destruct (length links =? 0)%nat; [exact Hn|apply Hv].
Qed.

Lemma walkPhase_surfaces_nothing : emits surfacesNothing (walkPhase (W:=W)).
Proof.
  apply walkPhase_emits; [unfold noLinks; script_steps| |reflexivity].
  intros links. apply visitAll_emits; [|reflexivity].
  intros i link. apply visit_emits; reflexivity.
Qed.

Lemma walkPhase_unfold s :
  walkPhase s
  = let r := (if (length (allMemberLinks s) =? 0)%nat
              then noLinks else visitAll (allMemberLinks s)) s in
    {| outcome := outcome r; final := final r;
       events := Logged (ProcessingLinks (length (allMemberLinks s))) :: events r |}.
Proof.
  unfold walkPhase, bind, getLinks, log. cbv zeta.
  destruct ((if (length (allMemberLinks s) =? 0)%nat then noLinks
             else visitAll (allMemberLinks s)) s).
  reflexivity.
Qed.

Lemma visitAll_visits links s : profileVisits (events (visitAll links s)) = links.
Proof.
  unfold visitAll. rewrite events_bind. cbn [setMembers outcome final events app].
  set (s0 := {| world := world s; allMemberLinks := allMemberLinks s; members := [] |}).
  destruct (walk_run links 0 (length links) s0) as [visits [Hlen [Ho [He _]]]].
  rewrite events_bind, Ho, He.
  rewrite profileVisits_app, (profileVisits_walk _ _ _ _ Hlen).
  rewrite (profileVisits_none (call BrowserClose;; getMembers)) by script_steps.
  apply app_nil_r.
Qed.

Lemma walkPhase_visits s : profileVisits (events (walkPhase s)) = allMemberLinks s.
Proof.
  rewrite walkPhase_unfold. cbv zeta. cbn [events].
  change (profileVisits (?ev :: ?l)) with (profileVisits l).
  destruct (allMemberLinks s) as [|link links] eqn:L.
  - apply profileVisits_none. unfold noLinks. script_steps.
  - apply visitAll_visits.
Qed.

Lemma noLinks_rows s rows : outcome (noLinks s) = Returns rows -> rows = [].
Proof.
  unfold noLinks. rewrite !outcome_bind. cbn [log outcome final].
  destruct (outcome (call (Screenshot ShotNoLinks true) s)) as [[]|e]; cbn [ret outcome];
    congruence.
Qed.

Lemma walkPhase_no_links s rows :
  allMemberLinks s = [] -> outcome (walkPhase s) = Returns rows -> rows = [].
Proof.
  intros L. rewrite walkPhase_unfold, L. cbv zeta. cbn [outcome length Nat.eqb].
  apply noLinks_rows.
Qed.

(** An attempt that returns went through all of its phases. *)
Lemma attempt_inv s rows :
  outcome (attempt s) = Returns rows ->
  exists s1 : Store W,
    let s2 := final (enumerate s1) in
    let s3 := final (diagnostics s2) in
    outcome (diagnostics s2) = Returns tt /\
    outcome (walkPhase s3) = Returns rows /\
    final (attempt s) = final (walkPhase s3) /\
    events (attempt s)
    = [Called (Goto directoryUrl 120000) (Returns tt); Slept 5000]
        ++ events (enumerate s1) ++ events (diagnostics s2) ++ events (walkPhase s3).
Proof.
  unfold attempt, afterNavigation. intros Ho.
  apply bind_inv in Ho as [[] [Hg [Ho [Hf He]]]]. rewrite He, Hf. clear He Hf.
  apply bind_inv in Ho as [[] [_ [Ho [Hf He]]]]. rewrite He, Hf. clear He Hf.
  apply bind_inv in Ho as [[] [_ [Ho [Hf He]]]]. rewrite He, Hf. clear He Hf.
  apply bind_inv in Ho as [[] [Hd [Ho [Hf He]]]]. rewrite He, Hf. clear He Hf.
  eexists. cbv zeta. split; [exact Hd|]. split; [exact Ho|]. split; [reflexivity|].
  rewrite events_call. rewrite outcome_call in Hg. rewrite Hg. reflexivity.
Qed.

Lemma attempt_visits_collected s rows :
  outcome (attempt s) = Returns rows ->
  profileVisits (events (attempt s))
  = firstOccurrences (concat (surfaced (events (attempt s)))).
Proof.
  intros Ho. destruct (attempt_inv s rows Ho) as [s1 [Hd [Hw [_ He]]]].
  rewrite He. rewrite !profileVisits_app, !surfaced_app.
  rewrite (profileVisits_none _ _ enumerate_visits_nothing).
  rewrite (profileVisits_none _ _ diagnostics_visits_nothing).
  rewrite (surfaced_none _ _ diagnostics_surfaces_nothing).
  rewrite (surfaced_none _ _ walkPhase_surfaces_nothing).
  rewrite walkPhase_visits, diagnostics_keeps, enumerate_links.
  simpl. rewrite !app_nil_r. reflexivity.
Qed.

Lemma attempt_no_links s rows :
  outcome (attempt s) = Returns rows ->
  concat (surfaced (events (attempt s))) = [] ->
  rows = [].
Proof.
  intros Ho Hs. destruct (attempt_inv s rows Ho) as [s1 [Hd [Hw [_ He]]]].
  rewrite He in Hs. rewrite !surfaced_app, !concat_app in Hs. simpl in Hs.
  apply app_eq_nil in Hs as [Hs _].
  apply (walkPhase_no_links _ _ ltac:(rewrite diagnostics_keeps, enumerate_links, Hs; reflexivity) Hw).
Qed.

End AttemptFacts.

(** ** The link set *)

Section LinkSetClaims.

Context {W : Type} `{Oracle W}.

Lemma pushUnique_cases links link :
  (link ∈ links -> pushUnique links link = links) /\
  (link ∉ links -> pushUnique links link = links ++ [link]) /\
  (NoDup links -> NoDup (pushUnique links link)).
Proof.
  split; [|split].
  - intros I. apply (pushUnique_old links link I).
  - intros I. apply (pushUnique_new links link I).
  - apply pushUnique_NoDup.
Qed.

Lemma addUnique_overlap (a b c : jsstring) :
  a <> b -> a <> c -> b <> c ->
  addUnique [b; c] (addUnique [a; b] []) = [a; b; c].
Proof.
  intros Hab Hac Hbc. unfold addUnique. rewrite <- foldl_app, pushUnique_from_nil.
  assert (Eab : isNot a b = true) by (apply isNot_other; congruence).
  assert (Eac : isNot a c = true) by (apply isNot_other; congruence).
  assert (Ebc : isNot b c = true) by (apply isNot_other; congruence).
  repeat progress (simpl; rewrite ?isNot_self, ?Eab, ?Eac, ?Ebc).
  reflexivity.
Qed.

Lemma offeredOptions_app evs evs' :
  offeredOptions (evs ++ evs') = offeredOptions evs ++ offeredOptions evs'.
Proof. apply omap_app. Qed.

Lemma offeredOptions_none {A} (m : M W A) s :
  emits offersNothing m -> offeredOptions (events (m s)) = [].
Proof. intros E. apply omap_none_forallb, E. Qed.

Lemma forOptions_offers_nothing opts : emits offersNothing (forOptions (W:=W) opts).
Proof. apply forOptions_emits. intros v. unfold processOption. script_steps. Qed.

Lemma processOption_scans v (s : Store W) :
  length (surfaced (events (processOption v s))) <= 1 /\
  (outcome (processOption v s) = Returns tt ->
   length (surfaced (events (processOption v s))) = 1).
Proof.
  unfold processOption. run_script.
  answer; [|split; [lia|discriminate]].
  answer; [|split; [lia|discriminate]].
  answer; split; try lia; try reflexivity; discriminate.
Qed.

Lemma forOptions_scans opts : forall s : Store W,
  length (surfaced (events (forOptions opts s)))
  <= length (chosenOptions (events (forOptions opts s))) /\
  (outcome (forOptions opts s) = Returns tt ->
   length (surfaced (events (forOptions opts s))) = length opts).
Proof.
  induction opts as [|v opts IH]; intros s.
  - split; [reflexivity|reflexivity].
  - cbn [forOptions].
    destruct (processOption_scans v s) as [Hle Heq].
    pose proof (processOption_chosen v s) as Hc.
    destruct (outcome (processOption v s)) as [[]|e] eqn:E.
    + rewrite (bind_returns _ _ _ _ E). cbn [outcome events].
      rewrite surfaced_app, chosenOptions_app, !length_app, Hc, (Heq eq_refl).
      destruct (IH (final (processOption v s))) as [Hle' Heq']. split.
      * cbn [length]. lia.
      * intros Ho. rewrite (Heq' Ho). reflexivity.
    + rewrite (bind_throws _ _ _ _ E). cbn [outcome events].
      rewrite Hc. split; [exact Hle|discriminate].
Qed.

(** The enumeration by the answers to its first two calls. *)
Lemma enumerate_cases (s : Store W) :
  match fst (respond unit (WaitForSelector pagingSelect 10000) (world s)) with
  | Throws e =>
      events (enumerate s)
      = [Called (WaitForSelector pagingSelect 10000) (Throws e);
         Logged (PaginationError (message e))]
  | Returns u =>
      let w1 := snd (respond unit (WaitForSelector pagingSelect 10000) (world s)) in
      match fst (respond _ SelectOptions w1) with
      | Throws e =>
          events (enumerate s)
          = [Called (WaitForSelector pagingSelect 10000) (Returns u);
             Called SelectOptions (Throws e);
             Logged (PaginationError (message e))]
      | Returns found =>
          let s2 := {| world := snd (respond _ SelectOptions w1);
                       allMemberLinks := []; members := members s |} in
          let looped := forOptions (default [] found) s2 in
          events (enumerate s)
          = [Called (WaitForSelector pagingSelect 10000) (Returns u);
             Called SelectOptions (Returns found);
             Logged (AvailableOptions (default [] found))]
              ++ events looped
              ++ match outcome looped with
                 | Returns _ => [Logged (TotalUnique (length (allMemberLinks (final looped))))]
                 | Throws e => [Logged (PaginationError (message e))]
                 end /\
          allMemberLinks (final (enumerate s)) = allMemberLinks (final looped)
      end
  end.
Proof.
  unfold enumerate, paginate, paginationBody. run_script.
  destruct (respond unit (WaitForSelector pagingSelect 10000) (world s)) as [[u|e] w1];
    cbn; [|reflexivity].
  destruct (respond (option (list jsstring)) SelectOptions w1) as [[found|e] w2];
    cbn; [|reflexivity].
  destruct (forOptions (default [] found)
              {| world := w2; allMemberLinks := []; members := members s |})
    as [[[]|e] s3 evs3]; cbn; rewrite ?app_nil_r; split; reflexivity.
Qed.

Lemma enumerate_options (s : Store W) :
  chosenOptions (events (enumerate s))
  `prefix_of` concat (offeredOptions (events (enumerate s))) /\
  (thrown (events (enumerate s)) = [] ->
   chosenOptions (events (enumerate s)) = concat (offeredOptions (events (enumerate s))) /\
   length (surfaced (events (enumerate s))) = length (chosenOptions (events (enumerate s)))).
Proof.
  pose proof (enumerate_cases s) as Hc.
  destruct (fst (respond unit (WaitForSelector pagingSelect 10000) (world s))) as [u|e].
  - cbv zeta in Hc.
    destruct (fst (respond _ SelectOptions
                     (snd (respond unit (WaitForSelector pagingSelect 10000) (world s)))))
      as [found|e].
    + destruct Hc as [He _]. rewrite He. clear He.
      match goal with
      | |- context [forOptions (default [] found) ?s2] =>
          set (looped := forOptions (default [] found) s2);
          destruct (forOptions_chosen (default [] found) s2) as [Hp Hq];
          destruct (forOptions_scans (default [] found) s2) as [_ Hn];
          pose proof (forOptions_propagates (default [] found) s2) as Ht;
          pose proof (offeredOptions_none _ s2 (forOptions_offers_nothing (default [] found)))
            as Hoff
      end.
      fold looped in Hp, Hq, Hn, Ht, Hoff.
      rewrite !chosenOptions_app, !offeredOptions_app, !thrown_app, !surfaced_app, Hoff.
      assert (Hz : forall tail : list Event,
                 tail = match outcome looped with
                        | Returns _ =>
                            [Logged (TotalUnique (length (allMemberLinks (final looped))))]
                        | Throws e => [Logged (PaginationError (message e))]
                        end ->
                 chosenOptions tail = [] /\ surfaced tail = [] /\
                 thrown tail = [] /\ offeredOptions tail = [])
        by (intros tail ->; destruct (outcome looped); repeat split).
      destruct (Hz _ eq_refl) as [Hz1 [Hz2 [Hz3 Hz4]]]. rewrite Hz1, Hz2, Hz3, Hz4.
      cbn. rewrite !app_nil_r. split; [exact Hp|].
      intros Hthrown. rewrite Hthrown in Ht.
      destruct (outcome looped) as [[]|e]; [|discriminate].
      rewrite (Hq eq_refl), (Hn eq_refl). split; reflexivity.
    + rewrite Hc. cbn. split; [apply prefix_nil|discriminate].
  - rewrite Hc. cbn. split; [apply prefix_nil|discriminate].
Qed.

(** C2. After the enumeration, whatever the pages answered, the link set
    has no duplicate and lists the profile links surfaced by the scans in
    the order of their first discovery. The options selected are those the
    pagination control presented, in its order: a prefix of them in every
    run, and all of them, each scanned once, when no call rejects; the
    enumeration is the loop over exactly the options read from the control.
    A link is appended exactly when the link set does not contain it yet;
    and scans showing A, B and then B, C give exactly A, B, C. *)
Theorem linkset_unique_first_discovery (s : Store W) :
  NoDup (allMemberLinks (final (enumerate s))) /\
  allMemberLinks (final (enumerate s))
  = firstOccurrences (concat (surfaced (events (enumerate s)))) /\
  (forall opts (s' : Store W),
      chosenOptions (events (forOptions opts s')) `prefix_of` opts /\
      (outcome (forOptions opts s') = Returns tt ->
       chosenOptions (events (forOptions opts s')) = opts)) /\
  (forall links link,
      (link ∈ links -> pushUnique links link = links) /\
      (link ∉ links -> pushUnique links link = links ++ [link]) /\
      (NoDup links -> NoDup (pushUnique links link))) /\
  (forall a b c : jsstring,
      a <> b -> a <> c -> b <> c ->
      addUnique [b; c] (addUnique [a; b] []) = [a; b; c]) /\
  chosenOptions (events (enumerate s))
  `prefix_of` concat (offeredOptions (events (enumerate s))) /\
  (thrown (events (enumerate s)) = [] ->
   chosenOptions (events (enumerate s)) = concat (offeredOptions (events (enumerate s))) /\
   length (surfaced (events (enumerate s))) = length (chosenOptions (events (enumerate s)))) /\
  (forall u found,
      fst (respond unit (WaitForSelector pagingSelect 10000) (world s)) = Returns u ->
      fst (respond _ SelectOptions
             (snd (respond unit (WaitForSelector pagingSelect 10000) (world s))))
      = Returns found ->
      let s2 := {| world := snd (respond _ SelectOptions
                                   (snd (respond unit (WaitForSelector pagingSelect 10000)
                                           (world s))));
                   allMemberLinks := []; members := members s |} in
      let looped := forOptions (default [] found) s2 in
      events (enumerate s)
      = [Called (WaitForSelector pagingSelect 10000) (Returns u);
         Called SelectOptions (Returns found);
         Logged (AvailableOptions (default [] found))]
          ++ events looped
          ++ match outcome looped with
             | Returns _ => [Logged (TotalUnique (length (allMemberLinks (final looped))))]
             | Throws e => [Logged (PaginationError (message e))]
             end /\
      allMemberLinks (final (enumerate s)) = allMemberLinks (final looped) /\
      length (surfaced (events looped)) <= length (chosenOptions (events looped)) /\
      (outcome looped = Returns tt ->
       length (surfaced (events looped)) = length (default [] found))) /\
  (forall a b c : jsstring,
      a <> b -> a <> c -> b <> c ->
      surfaced (events (enumerate s)) = [[a; b]; [b; c]] ->
      allMemberLinks (final (enumerate s)) = [a; b; c]).
Proof.
  split; [|split; [|split; [|split; [|split; [|split; [|split; [|split]]]]]]].
  - rewrite enumerate_links. apply NoDup_firstOccurrences.
  - apply enumerate_links.
  - intros opts s'. apply forOptions_chosen.
  - apply pushUnique_cases.
  - apply addUnique_overlap.
  - apply enumerate_options.
  - apply enumerate_options.
  - intros u found Hw Hs. pose proof (enumerate_cases s) as Hc.
    rewrite Hw in Hc. cbv zeta in Hc. rewrite Hs in Hc. cbv zeta.
    destruct Hc as [He Hl]. split; [exact He|]. split; [exact Hl|].
    apply forOptions_scans.
  - intros a b c Hab Hac Hbc Hsurf. rewrite enumerate_links, Hsurf.
    rewrite <- (addUnique_overlap a b c Hab Hac Hbc).
    unfold addUnique. rewrite <- foldl_app, pushUnique_from_nil.
    cbn [concat app]. reflexivity.
Qed.

(** C10. The inner [catch] swallows a failure of the enumeration: the
    enumeration always completes, keeping every link the scans surfaced
    before the failure and logging the error; and an attempt that completes
    has visited exactly those links. *)
Theorem partial_enumeration_is_kept (s : Store W) :
  outcome (enumerate s) = Returns tt /\
  allMemberLinks (final (enumerate s))
  = firstOccurrences (concat (surfaced (events (enumerate s)))) /\
  (forall e,
      last (thrown (events (enumerate s))) = Some e ->
      last (events (enumerate s)) = Some (Logged (PaginationError (message e)))) /\
  (forall rows,
      outcome (attempt s) = Returns rows ->
      profileVisits (events (attempt s))
      = firstOccurrences (concat (surfaced (events (attempt s))))).
Proof.
  split; [|split; [|split]].
  - rewrite enumerate_outcome. apply paginate_returns.
  - apply enumerate_links.
  - intros e. rewrite enumerate_events. apply paginate_failure_logged.
  - apply attempt_visits_collected.
Qed.

End LinkSetClaims.

Section StubRuns.

Import Stub.

(** The stub directory of the specification: options 10 and 25 showing
    A, B and B, C give the links A, B, C and three records. *)
Example stub_directory_run :
  let r := scrapeData (H := oracle (directory never)) start in
  allMemberLinks (final r) = [linkA; linkB; linkC] /\
  profileVisits (events r) = [linkA; linkB; linkC] /\
  outcome r = Returns (Rows [Samples.acmeRecord; Samples.acmeRecord; Samples.acmeRecord]).
Proof. vm_compute. repeat split. Qed.

(** Selecting option 25 rejects: the links of option 10 are kept, the
    error is logged and the two profiles are visited. *)
Example stub_partial_enumeration :
  let r := attempt (H := oracle (directory (only 6))) start in
  allMemberLinks (final r) = [linkA; linkB] /\
  profileVisits (events r) = [linkA; linkB] /\
  Logged (PaginationError (js "Navigation timeout")) ∈ events r /\
  outcome r = Returns [Samples.acmeRecord; Samples.acmeRecord].
Proof.
  vm_compute. repeat split.
  apply list_elem_of_In. vm_compute. tauto.
Qed.

End StubRuns.

(** ** The retry loop *)

(** Like [script_steps], entering the loops and the named phases. *)
Ltac phase_steps :=
  unfold scrapeData, openSession, attempt, afterNavigation, enumerate, paginate,
    paginationBody, diagnostics, walkPhase, noLinks, visitAll, saveToGoogleSheet;
  repeat first
    [ progress cbv zeta
    | apply emits_bind; [|intros ?]
    | apply emits_tryCatch; [|intros ?]
    | apply emits_call; intros ?; reflexivity
    | apply emits_sleep; reflexivity
    | apply emits_log; reflexivity
    | apply forOptions_emits; intros ?; unfold processOption
    | apply walk_emits; intros ? ?; unfold visit
    | match goal with
      | |- emits _ (if ?b then _ else _) => destruct b
      end
    | solve [auto with script] ].

Section RetryFacts.

Context {W : Type} `{Oracle W}.

Lemma retryLoop_emits P n :
  emits P (attempt (W:=W)) ->
  (forall k, P (Logged (Retrying k)) = true) ->
  emits P (retryLoop n).
Proof.
  intros Ha Hl. induction n as [|n IH]; cbn [retryLoop]; [apply emits_ret|].
  apply emits_bind.
  - apply emits_tryCatch.
    + apply emits_bind; [exact Ha|intros rows; apply emits_ret].
    + intros e. apply emits_bind; [apply emits_log, Hl|intros _].
      destruct (n =? 0)%nat; [apply emits_throw|apply emits_ret].
  - intros [v|]; [apply emits_ret|exact IH].
Qed.

Lemma retryLoop_step m (s : Store W) :
  retryLoop (S m) s =
  match outcome (attempt s) with
  | Returns rows =>
      {| outcome := Returns (Rows rows); final := final (attempt s);
         events := events (attempt s) |}
  | Throws e =>
      if (m =? 0)%nat then
        {| outcome := Throws e; final := final (attempt s);
           events := events (attempt s) ++ [Logged (Retrying m)] |}
      else
        {| outcome := outcome (retryLoop m (final (attempt s)));
           final := final (retryLoop m (final (attempt s)));
           events := events (attempt s)
                       ++ Logged (Retrying m) :: events (retryLoop m (final (attempt s))) |}
  end.
Proof.
  cbn [retryLoop]. unfold bind, tryCatch, log, ret, throw.
  destruct (attempt s) as [[rows|e] s1 evs1]; cbn [outcome final events app].
  - rewrite !app_nil_r. reflexivity.
  - destruct (m =? 0)%nat; cbn [outcome final events app].
    + reflexivity.
    + destruct (retryLoop m s1) as [o s2 evs2]. cbn [outcome final events].
      rewrite <- app_assoc. reflexivity.
Qed.

Lemma root_navigation_counts r :
  attempts [Called (Goto directoryUrl 120000) r] = 1.
Proof. vm_compute. reflexivity. Qed.

Lemma afterNavigation_no_root : emits notRootNavigation (afterNavigation (W:=W)).
Proof. phase_steps. Qed.

Lemma attempt_attempts (s : Store W) : attempts (events (attempt s)) = 1.
Proof.
  unfold attempt. rewrite events_bind, events_call, attempts_app, root_navigation_counts.
  destruct (outcome (call (Goto directoryUrl 120000) s)); [|reflexivity].
  rewrite (attempts_none _ _ afterNavigation_no_root). reflexivity.
Qed.

Lemma attempt_no_retry_log : emits logsNoRetry (attempt (W:=W)).
Proof. phase_steps. Qed.

Lemma countdown_S n : countdown (S n) = n :: countdown n.
Proof. unfold countdown. rewrite seq_S, rev_app_distr. reflexivity. Qed.

Lemma retryLoop_spec n : forall s : Store W,
  attempts (events (retryLoop n s)) <= n /\
  retryLogs (events (retryLoop n s)) `prefix_of` countdown n /\
  match outcome (retryLoop n s) with
  | Returns (Rows _) =>
      attempts (events (retryLoop n s)) = S (length (retryLogs (events (retryLoop n s))))
  | Returns Undefined => n = 0
  | Throws _ =>
      attempts (events (retryLoop n s)) = n /\
      retryLogs (events (retryLoop n s)) = countdown n /\
      last (events (retryLoop n s)) = Some (Logged (Retrying 0))
  end.
Proof.
  induction n as [|n IH]; intros s.
  - cbn. repeat split; [lia|apply prefix_nil].
  - rewrite retryLoop_step, countdown_S.
    pose proof (attempt_attempts s) as Ha.
    pose proof (retryLogs_none _ s attempt_no_retry_log) as Hl.
    destruct (outcome (attempt s)) as [rows|e]; cbn [outcome events].
    + rewrite Ha, Hl. repeat split; [lia|apply prefix_nil].
    + destruct (n =? 0)%nat eqn:N; cbn [outcome events].
      * apply Nat.eqb_eq in N. subst n.
        rewrite attempts_app, retryLogs_app, Ha, Hl, last_snoc. cbn.
        repeat split; [lia|reflexivity].
      * apply Nat.eqb_neq in N.
        destruct (IH (final (attempt s))) as [Hle [Hpre Hout]].
        rewrite attempts_app, retryLogs_app, Ha, Hl.
        change (attempts (Logged (Retrying n) :: ?l)) with (attempts l).
        change (retryLogs (Logged (Retrying n) :: ?l)) with (n :: retryLogs l).
        cbn [app]. split; [lia|]. split; [apply prefix_cons, Hpre|].
        destruct (outcome (retryLoop n (final (attempt s)))) as [[rows|]|e'].
        -- cbn [length]. lia.
        -- contradiction.
        -- destruct Hout as [Hn [Hlogs Hlast]]. rewrite Hn, Hlogs.
           repeat split.
           rewrite last_app, last_cons, Hlast. reflexivity.
Qed.

Lemma retryLoop_no_links n : forall (s : Store W) rows,
  outcome (retryLoop n s) = Returns (Rows rows) ->
  concat (surfaced (events (retryLoop n s))) = [] ->
  rows = [].
Proof.
  induction n as [|n IH]; intros s rows; [discriminate|].
  rewrite retryLoop_step.
  destruct (outcome (attempt s)) as [rows'|e] eqn:E; cbn [outcome events].
  - intros [= ->]. apply (attempt_no_links s rows E).
  - destruct (n =? 0)%nat; cbn [outcome events]; [discriminate|].
    intros Ho Hs. apply (IH _ _ Ho).
    rewrite surfaced_app, concat_app in Hs. apply app_eq_nil in Hs as [_ Hs].
    exact Hs.
Qed.

Lemma retryLoop_returned n : forall (s : Store W) rows,
  outcome (retryLoop n s) = Returns (Rows rows) ->
  exists s' pre,
    outcome (attempt s') = Returns rows /\
    final (retryLoop n s) = final (attempt s') /\
    events (retryLoop n s) = pre ++ events (attempt s').
Proof.
  induction n as [|n IH]; intros s rows; [discriminate|].
  rewrite retryLoop_step.
  destruct (outcome (attempt s)) as [rows'|e] eqn:E; cbn [outcome final events].
  - intros [= ->]. exists s, []. repeat split. exact E.
  - destruct (n =? 0)%nat; cbn [outcome final events]; [discriminate|].
    intros Ho. destruct (IH _ _ Ho) as [s' [pre [Ha [Hf He]]]].
    exists s', (events (attempt s) ++ Logged (Retrying n) :: pre).
    rewrite He, Hf. repeat split; [exact Ha|].
    rewrite <- app_assoc. reflexivity.
Qed.

End RetryFacts.

(** ** The whole scrape and the export *)

Section MainFacts.

Context {W : Type} `{Oracle W}.

Lemma scrapeData_events (s : Store W) :
  events (scrapeData s)
  = events (openSession s)
      ++ match outcome (openSession s) with
         | Returns _ => events (retryLoop 3 (final (openSession s)))
         | Throws _ => []
         end.
Proof. exact (events_bind openSession (fun _ => retryLoop 3) s). Qed.

Lemma scrapeData_outcome (s : Store W) :
  outcome (scrapeData s)
  = match outcome (openSession s) with
    | Returns _ => outcome (retryLoop 3 (final (openSession s)))
    | Throws e => Throws e
    end.
Proof. exact (outcome_bind openSession (fun _ => retryLoop 3) s). Qed.

Lemma scrapeData_final (s : Store W) :
  final (scrapeData s)
  = match outcome (openSession s) with
    | Returns _ => final (retryLoop 3 (final (openSession s)))
    | Throws e => final (openSession s)
    end.
Proof. exact (final_bind openSession (fun _ => retryLoop 3) s). Qed.

Lemma openSession_no_root : emits notRootNavigation (openSession (W:=W)).
Proof. phase_steps. Qed.

Lemma openSession_no_retry_log : emits logsNoRetry (openSession (W:=W)).
Proof. phase_steps. Qed.

Lemma openSession_launches (s : Store W) : launches (events (openSession s)) = 1.
Proof.
  unfold openSession. rewrite events_bind, events_call, launches_app.
  change (launches [Called Launch ?r]) with 1.
  destruct (outcome (call Launch s)); [|reflexivity].
  rewrite (launches_none
             (call NewPage;; call (SetDefaultTimeout 120000);; call (SetUserAgent userAgent)))
    by phase_steps.
  reflexivity.
Qed.

Lemma openSession_head (s : Store W) :
  head (events (openSession s)) = Some (Called Launch (fst (respond unit Launch (world s)))).
Proof. unfold openSession. rewrite events_bind, events_call. reflexivity. Qed.

Lemma attempt_no_launch : emits notLaunch (attempt (W:=W)).
Proof. phase_steps. Qed.

Lemma scrapeData_no_sink : emits notSinkCall (scrapeData (W:=W)).
Proof.
  unfold scrapeData. apply emits_bind; [phase_steps|intros _].
  apply retryLoop_emits; [phase_steps|reflexivity].
Qed.

Lemma scrapeData_no_top_error : emits notTopLevelError (scrapeData (W:=W)).
Proof.
  unfold scrapeData. apply emits_bind; [phase_steps|intros _].
  apply retryLoop_emits; [phase_steps|reflexivity].
Qed.

Lemma scrapeData_launches (s : Store W) : launches (events (scrapeData s)) = 1.
Proof.
  rewrite scrapeData_events, launches_app, openSession_launches.
  destruct (outcome (openSession s)); [|reflexivity].
  rewrite (launches_none (retryLoop 3)); [reflexivity|].
  apply retryLoop_emits; [apply attempt_no_launch|reflexivity].
Qed.

Lemma scrapeData_spec (s : Store W) :
  attempts (events (scrapeData s)) <= 3 /\
  retryLogs (events (scrapeData s)) `prefix_of` [2; 1; 0] /\
  match outcome (scrapeData s) with
  | Returns (Rows _) =>
      attempts (events (scrapeData s)) = S (length (retryLogs (events (scrapeData s))))
  | Returns Undefined => False
  | Throws _ =>
      attempts (events (scrapeData s)) = 0 \/
      (attempts (events (scrapeData s)) = 3 /\
       retryLogs (events (scrapeData s)) = [2; 1; 0] /\
       last (events (scrapeData s)) = Some (Logged (Retrying 0)))
  end.
Proof.
  rewrite scrapeData_events, scrapeData_outcome, attempts_app, retryLogs_app.
  rewrite (attempts_none _ s openSession_no_root).
  rewrite (retryLogs_none _ s openSession_no_retry_log).
  destruct (outcome (openSession s)) as [[]|e].
  - destruct (retryLoop_spec 3 (final (openSession s))) as [Hle [Hpre Hout]].
    cbn [app Nat.add]. split; [exact Hle|]. split; [exact Hpre|].
    destruct (outcome (retryLoop 3 (final (openSession s)))) as [[rows|]|e].
    + exact Hout.
    + discriminate.
    + right. destruct Hout as [Ha [Hl Hlast]]. repeat split; try assumption.
      rewrite last_app, Hlast. reflexivity.
  - cbn. repeat split; [lia|apply prefix_nil|left; reflexivity].
Qed.

Lemma scrapeData_no_links (s : Store W) rows :
  outcome (scrapeData s) = Returns (Rows rows) ->
  concat (surfaced (events (scrapeData s))) = [] ->
  rows = [].
Proof.
  rewrite scrapeData_events, scrapeData_outcome.
  destruct (outcome (openSession s)) as [[]|e]; [|discriminate].
  intros Ho Hs. apply (retryLoop_no_links 3 _ _ Ho).
  rewrite surfaced_app, concat_app in Hs. apply app_eq_nil in Hs as [_ Hs].
  exact Hs.
Qed.

(** *** The spreadsheet sink *)

Lemma saveToGoogleSheet_returns rows (s : Store W) :
  outcome (saveToGoogleSheet rows s) = Returns tt.
Proof.
  unfold saveToGoogleSheet. rewrite outcome_tryCatch.
  match goal with |- match outcome ?b with _ => _ end = _ => destruct (outcome b) as [[]|e] end;
    reflexivity.
Qed.

Lemma sheetBody_propagates rows :
  propagates
    (log (W:=W) UsingCredentials;;
     call GetClient;;
     log AuthSuccessful;;
     call (ValuesClear (js "A:Z"));;
     call (ValuesUpdate (js "A1") (headers :: map rowValues rows));;
     log (Uploaded (length rows))).
Proof.
  repeat first
    [ apply propagates_call
    | apply propagates_bind; [|intros ?]
    | apply propagates_silent; [intros s; eexists; reflexivity|script_steps] ].
Qed.

Lemma saveToGoogleSheet_logs_failure rows (s : Store W) e :
  e ∈ thrown (events (saveToGoogleSheet rows s)) ->
  Logged (SheetError (message e)) ∈ events (saveToGoogleSheet rows s) /\
  Logged (SheetFullError e) ∈ events (saveToGoogleSheet rows s).
Proof.
  unfold saveToGoogleSheet. cbv zeta. rewrite events_tryCatch.
  pose proof (sheetBody_propagates rows s) as P. revert P.
  match goal with |- match outcome ?b with _ => _ end -> _ => set (body := b) end.
  destruct (outcome body) as [[]|e'] eqn:E; intros P.
  - rewrite app_nil_r, P. intros I. apply elem_of_nil in I. contradiction.
  - rewrite thrown_app, P. cbn. intros I.
    apply list_elem_of_singleton in I. subst e'.
    split; apply elem_of_app; right; [left|right; left].
Qed.

Lemma saveToGoogleSheet_no_top_error rows :
  emits notTopLevelError (saveToGoogleSheet (W:=W) rows).
Proof. phase_steps. Qed.

Lemma saveToGoogleSheet_no_file_call rows :
  emits (fun ev => negb (isFileSinkCall ev)) (saveToGoogleSheet (W:=W) rows).
Proof. phase_steps. Qed.

(** *** The main block *)

Lemma main_outcome (s : Store W) : outcome (main s) = Returns tt.
Proof.
  unfold main. rewrite outcome_tryCatch.
  match goal with |- match ?o with _ => _ end = _ => destruct o as [[]|e] end; reflexivity.
Qed.

Lemma main_events (s : Store W) :
  events (main s)
  = events (scrapeData s)
      ++ match outcome (scrapeData s) with
         | Returns v =>
             events (exportRows v (final (scrapeData s)))
               ++ match outcome (exportRows v (final (scrapeData s))) with
                  | Returns _ => []
                  | Throws e => [Logged (ScrapeError e)]
                  end
         | Throws e => [Logged (ScrapeError e)]
         end.
Proof.
  unfold main. rewrite events_tryCatch, events_bind, outcome_bind, final_bind.
  destruct (outcome (scrapeData s)) as [v|e]; [|rewrite app_nil_r; reflexivity].
  rewrite <- app_assoc. reflexivity.
Qed.

Lemma exportRows_nonempty rows (s : Store W) :
  rows <> [] ->
  exportRows (Rows rows) s
  = (call (WriteRecords rows);; log (Saved (length rows));; saveToGoogleSheet rows) s.
Proof. destruct rows; [congruence|reflexivity]. Qed.

Lemma exportRows_events rows (s : Store W) :
  rows <> [] ->
  events (exportRows (Rows rows) s)
  = Called (WriteRecords rows) (fst (respond unit (WriteRecords rows) (world s)))
      :: match fst (respond unit (WriteRecords rows) (world s)) with
         | Returns _ =>
             Logged (Saved (length rows))
               :: events (saveToGoogleSheet rows (final (call (WriteRecords rows) s)))
         | Throws _ => []
         end.
Proof.
  intros N. rewrite (exportRows_nonempty rows s N).
  rewrite events_bind, events_call, outcome_call.
  destruct (fst (respond unit (WriteRecords rows) (world s))) as [[]|e]; [|reflexivity].
  rewrite events_bind. reflexivity.
Qed.

Lemma exportRows_outcome rows (s : Store W) :
  rows <> [] ->
  outcome (exportRows (Rows rows) s)
  = match fst (respond unit (WriteRecords rows) (world s)) with
    | Returns _ => Returns tt
    | Throws e => Throws e
    end.
Proof.
  intros N. rewrite (exportRows_nonempty rows s N).
  rewrite outcome_bind, outcome_call.
  destruct (fst (respond unit (WriteRecords rows) (world s))) as [[]|e]; [|reflexivity].
  rewrite outcome_bind. cbn [log outcome final]. apply saveToGoogleSheet_returns.
Qed.

End MainFacts.

(** ** Sessions, retries and sinks *)

Section RunClaims.

Context {W : Type} `{Oracle W}.

Lemma visitAll_closes links (s : Store W) rows :
  outcome (visitAll links s) = Returns rows ->
  last (events (visitAll links s)) = Some (Called BrowserClose (Returns tt)).
Proof.
  unfold visitAll. intros Ho.
  apply bind_inv in Ho as [[] [_ [Ho [_ He]]]]. rewrite He. clear He.
  apply bind_inv in Ho as [[] [_ [Ho [_ He]]]]. rewrite He. clear He.
  apply bind_inv in Ho as [[] [Hc [_ [_ He]]]]. rewrite He. clear He.
  rewrite events_call. rewrite outcome_call in Hc. rewrite Hc.
  cbn [getMembers events]. rewrite app_nil_r, !last_app. reflexivity.
Qed.

Lemma walkPhase_keeps : keepsLinks (walkPhase (W:=W)).
Proof.
  unfold walkPhase, noLinks, visitAll.
  repeat first
    [ apply keeps_bind; [|intros ?]
    | apply walk_keeps
    | match goal with |- keepsLinks (if ?b then _ else _) => destruct b end
    | solve [auto with script] ].
Qed.

Lemma walkPhase_closes (s : Store W) rows :
  outcome (walkPhase s) = Returns rows ->
  allMemberLinks s <> [] ->
  last (events (walkPhase s)) = Some (Called BrowserClose (Returns tt)).
Proof.
  rewrite walkPhase_unfold. cbv zeta. cbn [outcome events].
  destruct (allMemberLinks s) as [|link links]; [congruence|].
  change (length (link :: links) =? 0)%nat with false. cbv iota.
  intros Ho _. rewrite last_cons, (visitAll_closes _ _ _ Ho). reflexivity.
Qed.

Lemma attempt_closes (s : Store W) rows :
  outcome (attempt s) = Returns rows ->
  allMemberLinks (final (attempt s)) <> [] ->
  last (events (attempt s)) = Some (Called BrowserClose (Returns tt)).
Proof.
  intros Ho. destruct (attempt_inv s rows Ho) as [s1 [_ [Hw [Hf He]]]].
  rewrite Hf, He, walkPhase_keeps. intros Hl.
  rewrite !last_app, (walkPhase_closes _ _ Hw Hl). reflexivity.
Qed.

Lemma call_keeps_members {T} (c : Call T) (s : Store W) :
  members (final (call c s)) = members s.
Proof. unfold call. destruct (respond T c (world s)); reflexivity. Qed.

Lemma visitAll_rows links (s : Store W) rows :
  outcome (visitAll links s) = Returns rows ->
  exists visits : list Visit,
    length visits = length links /\
    events (walk 0 (length links) links
              {| world := world s; allMemberLinks := allMemberLinks s; members := [] |})
    = walkEvents 0 (length links) links visits /\
    rows = omap visitRecord visits.
Proof.
  unfold visitAll. intros Ho.
  apply bind_inv in Ho as [[] [_ [Ho _]]]. cbn [setMembers final] in Ho.
  apply bind_inv in Ho as [[] [_ [Ho _]]].
  apply bind_inv in Ho as [[] [_ [Ho _]]].
  cbn [getMembers outcome] in Ho. rewrite call_keeps_members in Ho.
  match type of Ho with
  | context [walk 0 ?n links ?s0] =>
      destruct (walk_run links 0 n s0) as [visits [Hlen [_ [He [_ Hm]]]]]
  end.
  exists visits. rewrite Hm in Ho. injection Ho as <-.
  repeat split; assumption.
Qed.

(** C1. Whatever the pages answer, the profile loop completes without
    throwing; it navigates to every link exactly once, in collection order;
    and the records it appends to [members] are those of the visits whose
    navigation and extraction both succeeded, in the order of their links,
    so at most one per link and nothing for a failed visit. The sequence the
    walker returns, starting from an empty [members], is exactly these
    records. *)
Theorem walker_skips_failed_links (links : list jsstring) (i total : nat) (s : Store W) :
  (exists visits : list Visit,
      length visits = length links /\
      outcome (walk i total links s) = Returns tt /\
      events (walk i total links s) = walkEvents i total links visits /\
      profileVisits (events (walk i total links s)) = links /\
      members (final (walk i total links s)) = members s ++ omap visitRecord visits /\
      length (omap visitRecord visits) <= length links) /\
  (forall rows,
      outcome (visitAll links s) = Returns rows ->
      length rows <= length links /\
      profileVisits (events (visitAll links s)) = links /\
      exists visits : list Visit,
        length visits = length links /\
        events (walk 0 (length links) links
                  {| world := world s; allMemberLinks := allMemberLinks s; members := [] |})
        = walkEvents 0 (length links) links visits /\
        rows = omap visitRecord visits).
Proof.
  split.
  - destruct (walk_run links i total s) as [visits [Hlen [Ho [He [_ Hm]]]]].
    exists visits. repeat split; try assumption.
    + rewrite He. apply profileVisits_walk, Hlen.
    + rewrite <- Hlen. apply length_omap_le.
  - intros rows Ho.
    destruct (visitAll_rows links s rows Ho) as [visits [Hlen [He Hr]]].
    split; [|split].
    + rewrite Hr, <- Hlen. apply length_omap_le.
    + apply visitAll_visits.
    + exists visits. repeat split; assumption.
Qed.

(** C6. When the scrape returned a non-empty sequence, no sink was called
    before the CSV writer. If the writer rejects, the run ends there with the
    top-level error message and the sheets client is never called. If it
    succeeds, the run continues with the spreadsheet sink and is reported as
    successful whatever that sink does: the sink always returns, logs every
    rejection of its calls, and never calls the CSV writer. *)
Theorem file_sink_first_sheet_best_effort (s : Store W) (rows : list MemberRecord) :
  rows <> [] ->
  outcome (scrapeData s) = Returns (Rows rows) ->
  List.filter isSinkCall (events (scrapeData s)) = [] /\
  match fst (respond unit (WriteRecords rows) (world (final (scrapeData s)))) with
  | Throws e =>
      events (main s)
      = events (scrapeData s)
          ++ [Called (WriteRecords rows) (Throws e); Logged (ScrapeError e)]
  | Returns u =>
      events (main s)
      = events (scrapeData s)
          ++ Called (WriteRecords rows) (Returns u)
          :: Logged (Saved (length rows))
          :: events (saveToGoogleSheet rows
                       (final (call (WriteRecords rows) (final (scrapeData s))))) /\
      reportedSuccessful (events (main s))
  end /\
  (forall s' : Store W,
      outcome (saveToGoogleSheet rows s') = Returns tt /\
      List.filter isFileSinkCall (events (saveToGoogleSheet rows s')) = [] /\
      (forall e,
          e ∈ thrown (events (saveToGoogleSheet rows s')) ->
          Logged (SheetError (message e)) ∈ events (saveToGoogleSheet rows s'))).
Proof.
  intros N Ho. split; [apply sinkCalls_none, scrapeData_no_sink|]. split.
  - rewrite main_events, Ho, exportRows_events, exportRows_outcome by exact N.
    destruct (fst (respond unit (WriteRecords rows) (world (final (scrapeData s)))))
      as [u|e]; [|reflexivity].
    rewrite app_nil_r. split; [reflexivity|]. split.
    + exists (length rows). apply elem_of_app. right. right. left.
    + rewrite List.filter_app, (topLevelErrors_none _ s scrapeData_no_top_error).
      cbn [List.filter isTopLevelError app].
      apply topLevelErrors_none, saveToGoogleSheet_no_top_error.
  - intros s'. split; [apply saveToGoogleSheet_returns|]. split.
    + apply filter_none_forallb, saveToGoogleSheet_no_file_call.
    + intros e I. apply (saveToGoogleSheet_logs_failure rows s' e I).
Qed.

(** C7. When no scan of the run surfaces a profile link, the scrape
    returns the empty sequence, unless the browser could not be set up or
    all three attempts failed, in which case it throws; in every case no
    sink is called. With an empty link set the profile phase returns the
    empty sequence as soon as its debugging screenshot succeeds. *)
Theorem no_links_no_export (s : Store W) :
  concat (surfaced (events (main s))) = [] ->
  (outcome (scrapeData s) = Returns (Rows [])
   \/ exists e,
       outcome (scrapeData s) = Throws e /\
       (attempts (events (scrapeData s)) = 0
        \/ retryLogs (events (scrapeData s)) = [2; 1; 0])) /\
  List.filter isSinkCall (events (main s)) = [] /\
  (forall s' : Store W,
      allMemberLinks s' = [] ->
      outcome (walkPhase s')
      = match fst (respond unit (Screenshot ShotNoLinks true) (world s')) with
        | Returns _ => Returns []
        | Throws e => Throws e
        end).
Proof.
  intros Hs. rewrite main_events, surfaced_app, concat_app in Hs.
  apply app_eq_nil in Hs as [Hs _].
  pose proof (scrapeData_spec s) as [_ [_ Hout]].
  pose proof (scrapeData_no_links s) as Hrows.
  pose proof (sinkCalls_none _ s scrapeData_no_sink) as Hsink.
  rewrite main_events, List.filter_app, Hsink.
  destruct (outcome (scrapeData s)) as [[rows|]|e].
  - rewrite (Hrows rows eq_refl Hs). split; [left; reflexivity|].
    split; [reflexivity|]. clear.
    intros s' L. rewrite walkPhase_unfold, L. cbv zeta. cbn [outcome length Nat.eqb].
    unfold noLinks. rewrite !outcome_bind. cbn [log outcome final].
    rewrite outcome_call. cbn [world].
    destruct (fst (respond unit (Screenshot ShotNoLinks true) (world s'))); reflexivity.
  - contradiction.
  - split.
    + right. exists e. split; [reflexivity|].
      destruct Hout as [Hz|[_ [Hl _]]]; [left; exact Hz|right; exact Hl].
    + split; [reflexivity|]. clear.
      intros s' L. rewrite walkPhase_unfold, L. cbv zeta. cbn [outcome length Nat.eqb].
      unfold noLinks. rewrite !outcome_bind. cbn [log outcome final].
      rewrite outcome_call. cbn [world].
      destruct (fst (respond unit (Screenshot ShotNoLinks true) (world s'))); reflexivity.
Qed.

(** C8. A scrape makes at most three attempts. A failed attempt is
    followed by the log of the attempts left, which count down 2, 1, 0, and,
    while that is not 0, by another attempt from the state the failed one
    left; the failure that finds 0 left is thrown. The scrape never falls
    out of its loop. When it throws, either the browser could not be set up
    or exactly three attempts failed, and the main block only prints the
    error: it calls no sink. *)
Theorem retries_are_bounded (s : Store W) :
  attempts (events (scrapeData s)) <= 3 /\
  retryLogs (events (scrapeData s)) `prefix_of` [2; 1; 0] /\
  outcome (scrapeData s) <> Returns Undefined /\
  (forall rows,
      outcome (scrapeData s) = Returns (Rows rows) ->
      attempts (events (scrapeData s)) = S (length (retryLogs (events (scrapeData s))))) /\
  (forall e,
      outcome (scrapeData s) = Throws e ->
      (attempts (events (scrapeData s)) = 0
       \/ (attempts (events (scrapeData s)) = 3
           /\ retryLogs (events (scrapeData s)) = [2; 1; 0]
           /\ last (events (scrapeData s)) = Some (Logged (Retrying 0)))) /\
      events (main s) = events (scrapeData s) ++ [Logged (ScrapeError e)] /\
      List.filter isSinkCall (events (main s)) = []) /\
  (forall (n : nat) (s' : Store W) e,
      outcome (attempt s') = Throws e ->
      outcome (retryLoop 1 s') = Throws e /\
      events (retryLoop 1 s') = events (attempt s') ++ [Logged (Retrying 0)] /\
      outcome (retryLoop (S (S n)) s') = outcome (retryLoop (S n) (final (attempt s'))) /\
      events (retryLoop (S (S n)) s')
      = events (attempt s')
          ++ Logged (Retrying (S n)) :: events (retryLoop (S n) (final (attempt s')))).
Proof.
  pose proof (scrapeData_spec s) as [Hle [Hpre Hout]].
  split; [exact Hle|]. split; [exact Hpre|]. split; [|split; [|split]].
  - intros E. rewrite E in Hout. exact Hout.
  - intros rows E. rewrite E in Hout. exact Hout.
  - intros e E. rewrite E in Hout. split; [exact Hout|].
    assert (Hm : events (main s) = events (scrapeData s) ++ [Logged (ScrapeError e)])
      by (rewrite main_events, E; reflexivity).
    split; [exact Hm|].
    rewrite Hm, List.filter_app, (sinkCalls_none _ s scrapeData_no_sink). reflexivity.
  - intros n s' e E. rewrite !retryLoop_step, E. cbn [Nat.eqb outcome events].
    repeat split.
Qed.

Lemma newPages_app evs evs' : newPages (evs ++ evs') = newPages evs + newPages evs'.
Proof. unfold newPages. rewrite List.filter_app, length_app. reflexivity. Qed.

Lemma newPages_none {A} (m : M W A) s : emits notNewPage m -> newPages (events (m s)) = 0.
Proof. intros E. unfold newPages. rewrite filter_none_forallb; [reflexivity|apply E]. Qed.

Lemma attempt_no_newPage : emits notNewPage (attempt (W:=W)).
Proof. phase_steps. Qed.

Lemma retryLoop_opens_nothing n (s : Store W) :
  launches (events (retryLoop n s)) = 0 /\ newPages (events (retryLoop n s)) = 0.
Proof.
  split.
  - apply launches_none, retryLoop_emits; [apply attempt_no_launch|reflexivity].
  - apply newPages_none, retryLoop_emits; [apply attempt_no_newPage|reflexivity].
Qed.

Lemma openSession_newPages (s : Store W) :
  newPages (events (openSession s))
  = match fst (respond unit Launch (world s)) with Returns _ => 1 | Throws _ => 0 end.
Proof.
  unfold openSession. rewrite events_bind, events_call, outcome_call, newPages_app.
  change (newPages [Called Launch ?r]) with 0.
  destruct (fst (respond unit Launch (world s))); [|reflexivity].
  rewrite events_bind, events_call, newPages_app.
  change (newPages [Called NewPage ?r]) with 1.
  destruct (outcome (call NewPage _)); [|reflexivity].
  rewrite (newPages_none (call (SetDefaultTimeout 120000);; call (SetUserAgent userAgent)))
    by phase_steps.
  reflexivity.
Qed.

(** C9, as amended. The browser is launched exactly once, as the first call
    of the run, and the page is opened once in that browser (never when the
    launch fails); both happen in the set-up that precedes the first
    attempt, and the attempts that follow, however many, launch no browser
    and open no page; a scrape that returns with a link set that is not
    empty has closed the browser as its last call. *)
Theorem session_opened_once (s : Store W) :
  launches (events (scrapeData s)) = 1 /\
  head (events (scrapeData s)) = Some (Called Launch (fst (respond unit Launch (world s)))) /\
  attempts (events (scrapeData s)) <= 3 /\
  (forall rows,
      outcome (scrapeData s) = Returns (Rows rows) ->
      allMemberLinks (final (scrapeData s)) <> [] ->
      last (events (scrapeData s)) = Some (Called BrowserClose (Returns tt))) /\
  newPages (events (scrapeData s))
  = match fst (respond unit Launch (world s)) with Returns _ => 1 | Throws _ => 0 end /\
  events (scrapeData s)
  = events (openSession s)
      ++ match outcome (openSession s) with
         | Returns _ => events (retryLoop 3 (final (openSession s)))
         | Throws _ => []
         end /\
  launches (events (openSession s)) = 1 /\
  newPages (events (openSession s)) = newPages (events (scrapeData s)) /\
  attempts (events (openSession s)) = 0 /\
  (forall n (s' : Store W),
      launches (events (retryLoop n s')) = 0 /\ newPages (events (retryLoop n s')) = 0) /\
  (forall s' : Store W,
      launches (events (attempt s')) = 0 /\ newPages (events (attempt s')) = 0).
Proof.
  assert (Hpages : newPages (events (scrapeData s)) = newPages (events (openSession s))).
  { rewrite scrapeData_events, newPages_app.
    destruct (outcome (openSession s)); [|cbn; lia].
    rewrite (proj2 (retryLoop_opens_nothing 3 _)). lia. }
  split; [apply scrapeData_launches|]. split; [|split; [|split]].
  - rewrite scrapeData_events. pose proof (openSession_head s) as Hh.
    destruct (events (openSession s)); [discriminate|exact Hh].
  - apply scrapeData_spec.
  - intros rows. rewrite scrapeData_outcome, scrapeData_final, scrapeData_events.
    destruct (outcome (openSession s)) as [[]|e]; [|discriminate].
    intros Ho Hl.
    destruct (retryLoop_returned 3 _ _ Ho) as [s' [pre [Ha [Hf He]]]].
    rewrite Hf in Hl. rewrite He, !last_app, (attempt_closes _ _ Ha Hl). reflexivity.
  - split; [rewrite Hpages; apply openSession_newPages|].
    split; [apply scrapeData_events|].
    split; [apply openSession_launches|].
    split; [symmetry; exact Hpages|].
    split; [apply attempts_none, openSession_no_root|].
    split; [intros n s'; apply retryLoop_opens_nothing|].
    intros s'. split.
    + apply launches_none, attempt_no_launch.
    + apply newPages_none, attempt_no_newPage.
Qed.

End RunClaims.

(** ** The claims on the stub site *)

Section StubClaims.

Import Samples Stub.

(** C9 as stated fails: on the stub directory whose first root navigation
    rejects, the second attempt succeeds in the browser launched for the
    first one: two attempts, one launch. *)
Lemma session_reused_counterexample :
  attempts (events (scrapeData (H := oracle (directory (only 4))) start)) = 2 /\
  launches (events (scrapeData (H := oracle (directory (only 4))) start)) = 1 /\
  outcome (scrapeData (H := oracle (directory (only 4))) start)
  = Returns (Rows threeAcmeRecords) /\
  ~ sessionPerAttempt (events (scrapeData (H := oracle (directory (only 4))) start)).
Proof.
  unfold sessionPerAttempt. vm_compute. repeat split. discriminate.
Qed.

(** With no link the scrape returns without closing the browser, and the
    main block calls no sink. *)
Example stub_no_links_run :
  outcome (scrapeData (H := oracle (emptyDirectory never)) start) = Returns (Rows []) /\
  closes (events (scrapeData (H := oracle (emptyDirectory never)) start)) = 0 /\
  last (events (main (H := oracle (emptyDirectory never)) start)) = Some (Logged NoData).
Proof. vm_compute. repeat split. Qed.

(** C1 on the stub directory: three links, three records. *)
Lemma walker_skips_failed_links_witness :
  length threeAcmeRecords <= length [linkA; linkB; linkC] /\
  profileVisits (events (visitAll (H := oracle (directory never)) [linkA; linkB; linkC] start))
  = [linkA; linkB; linkC].
Proof.
  destruct (proj2 (walker_skips_failed_links (H := oracle (directory never))
                     [linkA; linkB; linkC] 0 3 start)
              threeAcmeRecords ltac:(vm_compute; reflexivity)) as [Hle [Hv _]].
  split; [exact Hle|exact Hv].
Defined.

(** C2 on the stub directory: the control offers 10 and 25, both are
    selected in that order, the scans show A, B and then B, C, and the link
    set is A, B, C. *)
Lemma linkset_unique_first_discovery_witness :
  chosenOptions (events (enumerate (H := oracle (directory never)) start))
  = concat (offeredOptions (events (enumerate (H := oracle (directory never)) start))) /\
  length (surfaced (events (enumerate (H := oracle (directory never)) start)))
  = length (chosenOptions (events (enumerate (H := oracle (directory never)) start))) /\
  allMemberLinks (final (enumerate (H := oracle (directory never)) start))
  = [linkA; linkB; linkC].
Proof.
  destruct (linkset_unique_first_discovery (H := oracle (directory never)) start)
    as [_ [_ [_ [_ [_ [_ [Hall [_ Hends]]]]]]]].
  destruct (Hall ltac:(vm_compute; reflexivity)) as [Hchosen Hscans].
  split; [exact Hchosen|]. split; [exact Hscans|].
  apply Hends; try (intros E; vm_compute in E; discriminate E).
  vm_compute. reflexivity.
Defined.

(** C3 on the sample profile: both names are present. *)
Lemma contact_is_trimmed_join_witness :
  contact (memberInfo acmeProfile) = JString (js "Jane" ++ js " " ++ js "Doe").
Proof.
  destruct (proj2 (proj2 (proj2 (proj2 contact_is_trimmed_join))) acmeProfile)
    as [first [last [Ef [El [_ [_ [_ Hboth]]]]]]].
  vm_compute in Ef. vm_compute in El.
  injection Ef as <-. injection El as <-.
  apply Hboth; discriminate.
Defined.

(** C4 on the sample profile: a label that is present and one that is absent. *)
Lemma extractor_label_or_empty_witness :
  getText (js "Email") acmeProfile = JString (js "jane@acme.com") /\
  getText (js "City") acmeProfile = JString [].
Proof.
  destruct (extractor_label_or_empty acmeProfile) as [_ [_ [Hpresent Habsent]]].
  split.
  - set (l := querySelectorAllStar acmeProfile).
    assert (Hd : l = firstn 16 l ++ nth 16 l {| el := Text []; nextElementSibling := None;
                                                 parentNextElementSibling := None |}
                       :: skipn 17 l) by (vm_compute; reflexivity).
    destruct (Hpresent (js "Email") _ _ _ Hd) as [Hnext _];
      [vm_compute; reflexivity|vm_compute; reflexivity|].
    rewrite (Hnext _ ltac:(vm_compute; reflexivity)). vm_compute. reflexivity.
  - apply Habsent. vm_compute. reflexivity.
Defined.

(** C6 on the stub directory: three records reach the export. *)
Lemma file_sink_first_sheet_best_effort_witness :
  threeAcmeRecords <> [] /\
  outcome (scrapeData (H := oracle (directory never)) start) = Returns (Rows threeAcmeRecords) /\
  List.filter isSinkCall (events (scrapeData (H := oracle (directory never)) start)) = [].
Proof.
  assert (N : threeAcmeRecords <> []) by (intros E; discriminate E).
  assert (Ho : outcome (scrapeData (H := oracle (directory never)) start)
               = Returns (Rows threeAcmeRecords)) by (vm_compute; reflexivity).
  split; [exact N|]. split; [exact Ho|].
  exact (proj1 (file_sink_first_sheet_best_effort
                  (H := oracle (directory never)) start threeAcmeRecords N Ho)).
Defined.

(** C7 on the stub directory without pagination control. *)
Lemma no_links_no_export_witness :
  concat (surfaced (events (main (H := oracle (emptyDirectory never)) start))) = [] /\
  List.filter isSinkCall (events (main (H := oracle (emptyDirectory never)) start)) = [].
Proof.
  assert (Hs : concat (surfaced (events (main (H := oracle (emptyDirectory never)) start))) = [])
    by (vm_compute; reflexivity).
  split; [exact Hs|].
  exact (proj1 (proj2 (no_links_no_export (H := oracle (emptyDirectory never)) start Hs))).
Defined.

(** C8 on the stub directory whose every navigation rejects. *)
Lemma retries_are_bounded_witness :
  outcome (scrapeData (H := oracle (directory (from 4))) start)
  = Throws {| message := js "Navigation timeout" |} /\
  events (main (H := oracle (directory (from 4))) start)
  = events (scrapeData (H := oracle (directory (from 4))) start)
      ++ [Logged (ScrapeError {| message := js "Navigation timeout" |})] /\
  List.filter isSinkCall (events (main (H := oracle (directory (from 4))) start)) = [].
Proof.
  assert (Ho : outcome (scrapeData (H := oracle (directory (from 4))) start)
               = Throws {| message := js "Navigation timeout" |})
    by (vm_compute; reflexivity).
  split; [exact Ho|].
  exact (proj2 (proj1 (proj2 (proj2 (proj2 (proj2
           (retries_are_bounded (H := oracle (directory (from 4))) start)))))
           _ Ho)).
Defined.

(** C9, as amended, on the stub directory: one page is opened and the run
    ends by closing the browser. *)
Lemma session_opened_once_witness :
  newPages (events (scrapeData (H := oracle (directory never)) start)) = 1 /\
  last (events (scrapeData (H := oracle (directory never)) start))
  = Some (Called BrowserClose (Returns tt)).
Proof.
  destruct (session_opened_once (H := oracle (directory never)) start)
    as [_ [_ [_ [Hclose [Hpages _]]]]].
  split.
  - rewrite Hpages. vm_compute. reflexivity.
  - apply (Hclose threeAcmeRecords).
    + vm_compute. reflexivity.
    + vm_compute. intros E. discriminate E.
Defined.

(** C10 on the stub directory whose second option cannot be selected. *)
Lemma partial_enumeration_is_kept_witness :
  profileVisits (events (attempt (H := oracle (directory (only 6))) start))
  = firstOccurrences
      (concat (surfaced (events (attempt (H := oracle (directory (only 6))) start)))).
Proof.
  apply (proj2 (proj2 (proj2
           (partial_enumeration_is_kept (H := oracle (directory (only 6))) start)))
           [acmeRecord; acmeRecord]).
  vm_compute. reflexivity.
Defined.

End StubClaims.

(** * Further properties of the script *)

(** ** Links *)

Section MoreLinkFacts.

Lemma startsWith_spec needle : forall hay,
  startsWith needle hay = true <-> exists post, hay = needle ++ post.
Proof.
  induction needle as [|n needle IH]; intros hay; simpl.
  - split; [intros _; exists hay; reflexivity|reflexivity].
  - destruct hay as [|h hay]; [split; [discriminate|intros [post E]; discriminate]|].
    rewrite andb_true_iff, N.eqb_eq, IH. split.
    + intros [-> [post ->]]. exists post. reflexivity.
    + intros [post E]. injection E as -> ->. split; [reflexivity|exists post; reflexivity].
Qed.

Lemma includes_spec needle : forall hay,
  includes needle hay = true <-> exists pre post, hay = pre ++ needle ++ post.
Proof.
  induction hay as [|h hay IH].
  - cbn [includes]. rewrite orb_false_r, startsWith_spec. split.
    + intros [post E]. exists [], post. exact E.
    + intros [pre [post E]]. symmetry in E.
      apply app_eq_nil in E as [_ E]. apply app_eq_nil in E as [-> ->].
      exists []. reflexivity.
  - cbn [includes]. rewrite orb_true_iff, startsWith_spec, IH. split.
    + intros [[post E]|[pre [post E]]].
      * exists [], post. exact E.
      * exists (h :: pre), post. rewrite E. reflexivity.
    + intros [[|p pre] [post E]].
      * left. exists post. exact E.
      * right. injection E as -> E. exists pre, post. exact E.
Qed.

Lemma profileLinks_spec hrefs link :
  link ∈ profileLinks hrefs ->
  link <> [] /\ exists pre post, link = pre ++ js "PublicProfile" ++ post.
Proof.
  unfold profileLinks. rewrite elem_of_filter_bool. intros [_ Hp].
  unfold isProfileLink in Hp. apply andb_true_iff in Hp as [Hn Hi].
  split.
  - intros ->. discriminate.
  - apply includes_spec, Hi.
Qed.

Lemma surfacedBy_profile ev page link :
  surfacedBy ev = Some page -> link ∈ page ->
  link <> [] /\ exists pre post, link = pre ++ js "PublicProfile" ++ post.
Proof.
  destruct ev as [T c r| |]; try discriminate.
  destruct c; try discriminate. destruct r as [hrefs|e]; [|discriminate].
  cbn. intros [= <-]. apply profileLinks_spec.
Qed.

Lemma surfaced_profile evs link :
  link ∈ concat (surfaced evs) ->
  link <> [] /\ exists pre post, link = pre ++ js "PublicProfile" ++ post.
Proof.
  induction evs as [|ev evs IH]; [intros I; apply elem_of_nil in I; contradiction|].
  unfold surfaced. cbn [omap list_omap].
  destruct (surfacedBy ev) as [page|] eqn:E; [|exact IH].
  cbn [concat]. rewrite elem_of_app. intros [I|I].
  - apply (surfacedBy_profile ev page link E I).
  - apply IH, I.
Qed.

Lemma length_filter_le {A} (p : A -> bool) (l : list A) :
  length (List.filter p l) <= length l.
Proof.
  induction l as [|a l IH]; simpl; [lia|]. destruct (p a); simpl; lia.
Qed.

Lemma length_firstOccurrences l : length (firstOccurrences l) <= length l.
Proof.
  induction l as [|x l IH]; simpl; [lia|].
  pose proof (length_filter_le (isNot x) (firstOccurrences l)). lia.
Qed.

Lemma addUnique_spec page links :
  addUnique page links = links ++ firstOccurrences (List.filter (notIn links) page).
Proof. apply pushUnique_fold. Qed.

Lemma notIn_true links x : notIn links x = true <-> x ∉ links.
Proof.
  unfold notIn. rewrite negb_true_iff, bool_decide_eq_false. reflexivity.
Qed.

End MoreLinkFacts.

Section MoreLinkProperties.

Context {W : Type} `{Oracle W}.

(** X1. Every link the enumeration collects is a non-empty [href] that
    contains ['PublicProfile'], and so is every address an attempt that
    completes navigates to in the profile loop. *)
Theorem collected_links_are_profile_links (s : Store W) :
  (forall link,
      link ∈ allMemberLinks (final (enumerate s)) ->
      link <> [] /\ exists pre post, link = pre ++ js "PublicProfile" ++ post) /\
  (forall rows link,
      outcome (attempt s) = Returns rows ->
      link ∈ profileVisits (events (attempt s)) ->
      link <> [] /\ exists pre post, link = pre ++ js "PublicProfile" ++ post).
Proof.
  split.
  - intros link. rewrite enumerate_links, elem_of_firstOccurrences.
    apply surfaced_profile.
  - intros rows link Ho. rewrite (attempt_visits_collected s rows Ho).
    rewrite elem_of_firstOccurrences. apply surfaced_profile.
Qed.

End MoreLinkProperties.

Lemma elem_of_addUnique (page links : list jsstring) x :
  x ∈ addUnique page links <-> x ∈ links \/ x ∈ page.
Proof.
  rewrite addUnique_spec.
  rewrite elem_of_app, elem_of_firstOccurrences, elem_of_filter_bool, notIn_true.
  destruct (decide (x ∈ links)); tauto.
Qed.

(** X2. Adding the links of a page keeps the links already collected, in
    place and in order, in front; the result holds exactly the old links and
    the page's links, is no longer than both together, and has no duplicate
    when the old list had none. *)
Theorem addUnique_extends (page links : list jsstring) :
  links `prefix_of` addUnique page links /\
  (forall x, x ∈ addUnique page links <-> x ∈ links \/ x ∈ page) /\
  length (addUnique page links) <= length links + length page /\
  (NoDup links -> NoDup (addUnique page links)).
Proof.
  rewrite addUnique_spec. split; [|split; [|split]].
  - apply prefix_app_r. reflexivity.
  - intros x. rewrite <- addUnique_spec. apply elem_of_addUnique.
  - rewrite length_app.
    pose proof (length_firstOccurrences (List.filter (notIn links) page)).
    pose proof (length_filter_le (notIn links) page). lia.
  - intros N. apply NoDup_app. split; [exact N|]. split; [|apply NoDup_firstOccurrences].
    intros x I. rewrite elem_of_firstOccurrences, elem_of_filter_bool, notIn_true. tauto.
Qed.

(** X3. A page that shows only links already collected leaves the link set
    as it is; in particular scanning the same page twice adds nothing the
    second time. *)
Theorem addUnique_absorbs (page links : list jsstring) :
  ((forall x, x ∈ page -> x ∈ links) -> addUnique page links = links) /\
  addUnique page (addUnique page links) = addUnique page links.
Proof.
  assert (Habs : forall p l, (forall x, x ∈ p -> x ∈ l) -> addUnique p l = l).
  { intros p l Hin. rewrite addUnique_spec.
    assert (E : List.filter (notIn l) p = []).
    { induction p as [|x p IH]; [reflexivity|]. cbn [List.filter].
      destruct (notIn l x) eqn:N.
      - apply notIn_true in N. exfalso. apply N, Hin. left.
      - apply IH. intros y Hy. apply Hin. right. exact Hy. }
    rewrite E. apply app_nil_r. }
  split; [apply Habs|].
  apply Habs. intros x Hx. apply elem_of_addUnique. right. exact Hx.
Qed.

(** ** The extractor *)

Section MoreExtractorFacts.

Lemma scanLabels_find label l :
  scanLabels label l =
  match List.find (usable label) l with
  | Some e =>
      match neighbourOf e with
      | Some n => trim (textContent n)
      | None => []
      end
  | None => []
  end.
Proof.
  induction l as [|e l IH]; [reflexivity|].
  cbn [scanLabels List.find]. unfold usable at 1. unfold neighbourOf.
  destruct (matchesLabel label e); [|exact IH].
  destruct (nextElementSibling e) as [n|] eqn:En.
  - cbn. rewrite En. reflexivity.
  - destruct (parentNextElementSibling e) as [p|] eqn:Ep.
    + cbn. rewrite En, Ep. reflexivity.
    + exact IH.
Qed.

Lemma companyOf_trimmed d : exists s, companyOf d = JString s /\ trimmed s.
Proof.
  rewrite companyOf_cases. eexists. split; [reflexivity|].
  destruct (querySelector (js "h3") d) as [h3|];
    [destruct (bool_decide (trim (textContent h3) = []))|];
    try destruct (querySelector (js "h2") d);
    first [apply trim_trimmed|apply trimmed_nil].
Qed.

End MoreExtractorFacts.

Lemma rowValues_trimmed (d : Document) :
  Forall (fun cell => exists s, cell = JString s /\ trimmed s) (rowValues (memberInfo d)).
Proof.
  unfold rowValues, memberInfo. cbn [company contact phone email city province website memberType].
  repeat apply Forall_cons_2; try apply Forall_nil_2.
  - apply companyOf_trimmed.
  - unfold contactOf. eexists. split; [reflexivity|apply trim_trimmed].
  - exists []. split; [reflexivity|apply trimmed_nil].
  - apply labelled_field_trimmed.
  - apply labelled_field_trimmed.
  - apply labelled_field_trimmed.
  - apply labelled_field_trimmed.
  - exists []. split; [reflexivity|apply trimmed_nil].
Qed.

Lemma columns_read (row : MemberRecord) :
  map (fun c => getProperty (columnId c) row) csvHeader = rowValues row.
Proof. vm_compute. reflexivity. Qed.

(** X6. Every cell of an extracted record is a string with no white space
    at either end: the company, the contact and the labelled fields are
    results of [trim], and the two constant fields are empty. *)
Theorem record_cells_are_trimmed (d : Document) :
  Forall (fun cell => exists s, cell = JString s /\ trimmed s) (rowValues (memberInfo d)) /\
  length (rowValues (memberInfo d)) = 8 /\
  phone (memberInfo d) = JString [] /\
  memberType (memberInfo d) = JString [] /\
  (exists company contact email city province website,
      rowValues (memberInfo d)
      = [JString company; JString contact; JString []; JString email; JString city;
         JString province; JString website; JString []]).
Proof.
  split; [apply rowValues_trimmed|]. split; [reflexivity|].
  split; [reflexivity|]. split; [reflexivity|].
  pose proof (rowValues_trimmed d) as Hcells.
  unfold rowValues in *.
  cbn [company contact phone email city province website memberType memberInfo] in *.
  apply Forall_cons in Hcells. destruct Hcells as [[company [Ecompany _]] Hcells].
  apply Forall_cons in Hcells. destruct Hcells as [[contact [Econtact _]] Hcells].
  apply Forall_cons in Hcells. destruct Hcells as [_ Hcells].
  apply Forall_cons in Hcells. destruct Hcells as [[email [Eemail _]] Hcells].
  apply Forall_cons in Hcells. destruct Hcells as [[city [Ecity _]] Hcells].
  apply Forall_cons in Hcells. destruct Hcells as [[province [Eprovince _]] Hcells].
  apply Forall_cons in Hcells. destruct Hcells as [[website [Ewebsite _]] _].
  exists company, contact, email, city, province, website.
  rewrite Ecompany, Econtact, Eemail, Ecity, Eprovince, Ewebsite. reflexivity.
Qed.

(** X7. [getText] is decided by the first element, in document order, whose
    trimmed text is the label and which has a next element sibling or a
    parent with one: elements carrying the label without such a neighbour
    are passed over, and without any usable element the result is empty. *)
Theorem getText_first_usable (label : jsstring) (d : Document) :
  getText label d =
  JString
    match List.find (usable label) (querySelectorAllStar d) with
    | Some e =>
        match neighbourOf e with
        | Some n => trim (textContent n)
        | None => []
        end
    | None => []
    end.
Proof. unfold getText. f_equal. apply scanLabels_find. Qed.

(** X16. The CSV header and the spreadsheet rows use the same columns in
    the same order: the titles of the header are the spreadsheet's header
    row, and reading an extracted record by the header's ids gives the cells
    of its spreadsheet row, none of them undefined. *)
Theorem exports_share_columns (row : MemberRecord) :
  map (fun c => JString (columnTitle c)) csvHeader = headers /\
  map (fun c => getProperty (columnId c) row) csvHeader = rowValues row /\
  (forall d, Forall (fun c => is_string (getProperty (columnId c) (memberInfo d))) csvHeader).
Proof.
  split; [reflexivity|]. split; [apply columns_read|].
  intros d. apply Forall_map. rewrite columns_read.
  eapply Forall_impl; [apply rowValues_trimmed|].
  intros cell [s [-> _]]. exists s. reflexivity.
Qed.

(** ** Enumeration without options *)

Section MoreEnumeratorProperties.

Context {W : Type} `{Oracle W}.

(** X4. When the pagination control does not appear within the wait, the
    enumeration stops at once: it only logs the error, selects no option,
    scans no page and leaves the link set empty, and the attempt goes on. *)
Theorem missing_pagination_control (s : Store W) (e : Error) :
  fst (respond unit (WaitForSelector pagingSelect 10000) (world s)) = Throws e ->
  outcome (enumerate s) = Returns tt /\
  events (enumerate s)
  = [Called (WaitForSelector pagingSelect 10000) (Throws e);
     Logged (PaginationError (message e))] /\
  allMemberLinks (final (enumerate s)) = [].
Proof.
  intros Hw. unfold enumerate, paginate, paginationBody. run_script.
  destruct (respond unit (WaitForSelector pagingSelect 10000) (world s)) as [r w].
  cbn [fst] in Hw. subst r. cbn. repeat split.
Qed.

(** X5. When the control is there but offers no option, or has vanished
    when its options are read, the enumeration completes without selecting
    or scanning anything: it logs an empty option list and a total of 0
    links. *)
Theorem no_pagination_options (s : Store W) (u : unit) (found : option (list jsstring)) :
  fst (respond unit (WaitForSelector pagingSelect 10000) (world s)) = Returns u ->
  fst (respond _ SelectOptions
         (snd (respond unit (WaitForSelector pagingSelect 10000) (world s))))
  = Returns found ->
  default [] found = [] ->
  outcome (enumerate s) = Returns tt /\
  events (enumerate s)
  = [Called (WaitForSelector pagingSelect 10000) (Returns u);
     Called SelectOptions (Returns found);
     Logged (AvailableOptions []);
     Logged (TotalUnique 0)] /\
  allMemberLinks (final (enumerate s)) = [].
Proof.
  intros Hw Hs Hd. unfold enumerate, paginate, paginationBody. run_script.
  destruct (respond unit (WaitForSelector pagingSelect 10000) (world s)) as [r w].
  cbn [fst snd] in Hw, Hs. subst r. cbn.
  destruct (respond (option (list jsstring)) SelectOptions w) as [r' w'].
  cbn [fst] in Hs. subst r'. cbn. rewrite Hd. cbn. repeat split.
Qed.

End MoreEnumeratorProperties.

(** ** The profile loop and its result *)

Section MoreWalkerFacts.

Lemma extractedDocs_app evs evs' :
  extractedDocs (evs ++ evs') = extractedDocs evs ++ extractedDocs evs'.
Proof. apply omap_app. Qed.

Lemma memberErrors_app evs evs' :
  memberErrors (evs ++ evs') = memberErrors evs ++ memberErrors evs'.
Proof. apply omap_app. Qed.

Lemma visitEvents_read i total link v :
  map memberInfo (extractedDocs (visitEvents i total link v)) = option_list (visitRecord v) /\
  memberErrors (visitEvents i total link v) = map message (thrown (visitEvents i total link v)) /\
  1 <= length (extractedDocs (visitEvents i total link v))
       + length (thrown (visitEvents i total link v)).
Proof. destruct v as [e|e|doc [[]|e]]; cbn; repeat split; lia. Qed.

Lemma walkEvents_read links : forall i total visits,
  length visits = length links ->
  map memberInfo (extractedDocs (walkEvents i total links visits)) = omap visitRecord visits /\
  memberErrors (walkEvents i total links visits)
  = map message (thrown (walkEvents i total links visits)) /\
  length links <= length (extractedDocs (walkEvents i total links visits))
                  + length (thrown (walkEvents i total links visits)).
Proof.
  induction links as [|link links IH]; intros i total [|v vs] Hlen; try discriminate.
  - cbn. repeat split. lia.
  - cbn [walkEvents].
    rewrite extractedDocs_app, memberErrors_app, thrown_app, !map_app, !length_app.
    destruct (visitEvents_read i total link v) as [Hd [He Hn]].
    destruct (IH (S i) total vs ltac:(simpl in Hlen; lia)) as [Hd' [He' Hn']].
    rewrite Hd, He, Hd', He'. split; [|split].
    + unfold omap. cbn [list_omap]. destruct (visitRecord v); reflexivity.
    + reflexivity.
    + change (length (link :: links)) with (S (length links)). lia.
Qed.

End MoreWalkerFacts.

Section MoreWalkerProperties.

Context {W : Type} `{Oracle W}.

(** X8. The profile loop keeps one record for every profile document it
    obtained, whatever happened to the screenshot taken afterwards; it logs
    one error line, with the error's message, for every call that rejected;
    and every link leaves a record or an error line. *)
Theorem records_follow_extractions (links : list jsstring) (i total : nat) (s : Store W) :
  members (final (walk i total links s))
  = members s ++ map memberInfo (extractedDocs (events (walk i total links s))) /\
  memberErrors (events (walk i total links s))
  = map message (thrown (events (walk i total links s))) /\
  length links
  <= length (extractedDocs (events (walk i total links s)))
     + length (thrown (events (walk i total links s))).
Proof.
  destruct (walk_run links i total s) as [visits [Hlen [_ [He [_ Hm]]]]].
  destruct (walkEvents_read links i total visits Hlen) as [Hd [Hr Hn]].
  rewrite He, Hm, Hd. repeat split; assumption.
Qed.

(** X9. Failures inside the profile loop never make the walk throw: once
    the loop is entered, the result is decided by [browser.close()] alone.
    If it resolves, the records gathered are returned; if it rejects, its
    error is thrown and the records are given up. *)
Theorem close_decides_the_walk (links : list jsstring) (s : Store W) :
  let s0 := {| world := world s; allMemberLinks := allMemberLinks s; members := [] |} in
  let walked := walk 0 (length links) links s0 in
  outcome (visitAll links s)
  = match fst (respond unit BrowserClose (world (final walked))) with
    | Returns _ => Returns (map memberInfo (extractedDocs (events walked)))
    | Throws e => Throws e
    end.
Proof.
  cbv zeta. unfold visitAll. rewrite outcome_bind. cbn [setMembers outcome final].
  set (s0 := {| world := world s; allMemberLinks := allMemberLinks s; members := [] |}).
  destruct (walk_run links 0 (length links) s0) as [visits [Hlen [Ho [He [_ Hm]]]]].
  destruct (walkEvents_read links 0 (length links) visits Hlen) as [Hd _].
  rewrite outcome_bind, Ho, outcome_bind, outcome_call.
  destruct (fst (respond unit BrowserClose (world (final (walk 0 (length links) links s0)))));
    [|reflexivity].
  cbn [getMembers outcome]. rewrite call_keeps_members, Hm, He, Hd. reflexivity.
Qed.

End MoreWalkerProperties.

(** ** Attempts and the session *)

Section MoreAttemptFacts.

Context {W : Type} `{Oracle W}.

Lemma successfulCloses_app evs evs' :
  successfulCloses (evs ++ evs') = successfulCloses evs + successfulCloses evs'.
Proof. unfold successfulCloses. rewrite List.filter_app, length_app. reflexivity. Qed.

Lemma successfulCloses_none {A} (m : M W A) s :
  emits notSuccessfulClose m -> successfulCloses (events (m s)) = 0.
Proof.
  intros E. unfold successfulCloses. rewrite filter_none_forallb; [reflexivity|apply E].
Qed.

Lemma extractedDocs_none {A} (m : M W A) s :
  emits extractsNothing m -> extractedDocs (events (m s)) = [].
Proof. intros E. apply omap_none_forallb, E. Qed.

Lemma enumerate_returns (s : Store W) : outcome (enumerate s) = Returns tt.
Proof. rewrite enumerate_outcome. apply paginate_returns. Qed.

Lemma afterNavigation_parts (s : Store W) :
  let s2 := final (enumerate s) in
  outcome (afterNavigation s)
  = match outcome (diagnostics s2) with
    | Returns _ => outcome (walkPhase (final (diagnostics s2)))
    | Throws e => Throws e
    end /\
  final (afterNavigation s)
  = match outcome (diagnostics s2) with
    | Returns _ => final (walkPhase (final (diagnostics s2)))
    | Throws e => final (diagnostics s2)
    end /\
  events (afterNavigation s)
  = Slept 5000 :: events (enumerate s) ++ events (diagnostics s2)
      ++ match outcome (diagnostics s2) with
         | Returns _ => events (walkPhase (final (diagnostics s2)))
         | Throws e => []
         end.
Proof.
  cbv zeta. unfold afterNavigation.
  rewrite outcome_bind, final_bind, events_bind. cbn [sleep outcome final events app].
  rewrite outcome_bind, final_bind, events_bind, enumerate_returns.
  rewrite outcome_bind, final_bind, events_bind.
  repeat split.
Qed.

Lemma visitAll_parts links (s : Store W) :
  let s0 := {| world := world s; allMemberLinks := allMemberLinks s; members := [] |} in
  let walked := walk 0 (length links) links s0 in
  let closed := fst (respond unit BrowserClose (world (final walked))) in
  events (visitAll links s) = events walked ++ [Called BrowserClose closed] /\
  outcome (visitAll links s)
  = match closed with
    | Returns _ => Returns (members (final walked))
    | Throws e => Throws e
    end.
Proof.
  cbv zeta. unfold visitAll.
  rewrite events_bind, outcome_bind. cbn [setMembers outcome final events app].
  set (s0 := {| world := world s; allMemberLinks := allMemberLinks s; members := [] |}).
  destruct (walk_run links 0 (length links) s0) as [visits [_ [Ho _]]].
  rewrite events_bind, outcome_bind, Ho, events_bind, outcome_bind, events_call, outcome_call.
  destruct (fst (respond unit BrowserClose (world (final (walk 0 (length links) links s0)))));
    cbn [getMembers outcome events app]; rewrite ?call_keeps_members; split; reflexivity.
Qed.

Lemma walk_no_successful_close i total links :
  emits notSuccessfulClose (walk (W:=W) i total links).
Proof. apply walk_emits. intros j link. unfold visit. script_steps. Qed.

Lemma walk_extractions i total links (s : Store W) :
  members (final (walk i total links s))
  = members s ++ map memberInfo (extractedDocs (events (walk i total links s))).
Proof.
  destruct (walk_run links i total s) as [visits [Hlen [_ [He [_ Hm]]]]].
  destruct (walkEvents_read links i total visits Hlen) as [Hd _].
  rewrite He, Hm, Hd. reflexivity.
Qed.

Lemma walk_members_bound i total links (s : Store W) :
  length (extractedDocs (events (walk i total links s))) <= length links.
Proof.
  destruct (walk_run links i total s) as [visits [Hlen [_ [He _]]]].
  destruct (walkEvents_read links i total visits Hlen) as [Hd _].
  rewrite He. rewrite <- (length_map memberInfo), Hd, <- Hlen. apply length_omap_le.
Qed.

(** What a walk phase leaves behind, by its outcome. *)
Lemma walkPhase_summary (s : Store W) :
  match outcome (walkPhase s) with
  | Returns rows =>
      rows = map memberInfo (extractedDocs (events (walkPhase s))) /\
      length rows <= length (allMemberLinks s) /\
      successfulCloses (events (walkPhase s))
      = (if bool_decide (allMemberLinks s = []) then 0 else 1)
  | Throws _ => successfulCloses (events (walkPhase s)) = 0
  end.
Proof.
  rewrite walkPhase_unfold. cbv zeta. cbn [outcome events].
  change (extractedDocs (Logged ?l :: ?evs)) with (extractedDocs evs).
  change (successfulCloses (Logged ?l :: ?evs)) with (successfulCloses evs).
  destruct (allMemberLinks s) as [|link links] eqn:L.
  - cbn [length Nat.eqb].
    assert (Hc : successfulCloses (events (noLinks s)) = 0)
      by (apply successfulCloses_none; unfold noLinks; script_steps).
    assert (Hx : extractedDocs (events (noLinks s)) = [])
      by (apply extractedDocs_none; unfold noLinks; script_steps).
    rewrite Hc, Hx.
    destruct (outcome (noLinks s)) as [rows|e] eqn:E; [|reflexivity].
    rewrite (noLinks_rows s rows E). repeat split. cbn. lia.
  - change (length (link :: links) =? 0)%nat with false. cbv iota.
    destruct (visitAll_parts (link :: links) s) as [He Ho]. cbv zeta in He, Ho.
    rewrite He, Ho, successfulCloses_app, extractedDocs_app.
    rewrite (successfulCloses_none _ _ (walk_no_successful_close _ _ _)).
    rewrite walk_extractions. cbn [members app].
    match goal with
    | |- context [walk 0 ?n ?ls ?s0] =>
        pose proof (walk_members_bound 0 n ls s0) as Hb
    end.
    destruct (fst (respond unit BrowserClose _)) as [[]|e]; cbn.
    + rewrite app_nil_r, length_map. repeat split. exact Hb.
    + reflexivity.
Qed.

Lemma diagnostics_quiet :
  emits notSuccessfulClose (diagnostics (W:=W)) /\ emits extractsNothing (diagnostics (W:=W)).
Proof. split; unfold diagnostics; script_steps. Qed.

Lemma enumerate_quiet :
  emits notSuccessfulClose (enumerate (W:=W)) /\ emits extractsNothing (enumerate (W:=W)).
Proof. split; phase_steps. Qed.

(** What an attempt leaves behind, by its outcome. *)
Lemma attempt_summary (s : Store W) :
  match outcome (attempt s) with
  | Returns rows =>
      rows = map memberInfo (extractedDocs (events (attempt s))) /\
      length rows <= length (allMemberLinks (final (attempt s))) /\
      successfulCloses (events (attempt s))
      = (if bool_decide (allMemberLinks (final (attempt s)) = []) then 0 else 1)
  | Throws _ => successfulCloses (events (attempt s)) = 0
  end.
Proof.
  unfold attempt. rewrite outcome_bind, final_bind, events_bind, events_call, outcome_call.
  destruct (fst (respond unit (Goto directoryUrl 120000) (world s))) as [[]|e];
    [|reflexivity].
  set (s1 := final (call (Goto directoryUrl 120000) s)).
  destruct (afterNavigation_parts s1) as [Ho [Hf He]]. cbv zeta in Ho, Hf, He.
  rewrite Ho, Hf, He.
  change (extractedDocs ([?a] ++ Slept ?n :: ?evs)) with (extractedDocs evs).
  change (successfulCloses ([Called (Goto directoryUrl 120000) (Returns tt)]
                              ++ Slept ?n :: ?evs))
    with (successfulCloses evs).
  rewrite !extractedDocs_app, !successfulCloses_app.
  rewrite (extractedDocs_none _ _ (proj2 enumerate_quiet)).
  rewrite (successfulCloses_none _ _ (proj1 enumerate_quiet)).
  rewrite (extractedDocs_none _ _ (proj2 diagnostics_quiet)).
  rewrite (successfulCloses_none _ _ (proj1 diagnostics_quiet)).
  destruct (outcome (diagnostics (final (enumerate s1)))) as [[]|e]; [|reflexivity].
  pose proof (walkPhase_summary (final (diagnostics (final (enumerate s1))))) as Hw.
  rewrite walkPhase_keeps.
  destruct (outcome (walkPhase (final (diagnostics (final (enumerate s1)))))); exact Hw.
Qed.

Lemma retryLoop_summary n : forall s : Store W,
  successfulCloses (events (retryLoop n s))
  = match outcome (retryLoop n s) with
    | Returns (Rows _) =>
        if bool_decide (allMemberLinks (final (retryLoop n s)) = []) then 0 else 1
    | _ => 0
    end.
Proof.
  induction n as [|n IH]; intros s; [reflexivity|].
  rewrite retryLoop_step. pose proof (attempt_summary s) as Ha.
  destruct (outcome (attempt s)) as [rows|e]; cbn [outcome final events].
  - apply Ha.
  - destruct (n =? 0)%nat; cbn [outcome final events];
      rewrite successfulCloses_app, Ha; [reflexivity|].
    change (successfulCloses (Logged ?l :: ?evs)) with (successfulCloses evs).
    apply IH.
Qed.

Lemma openSession_quiet :
  emits notSuccessfulClose (openSession (W:=W)) /\ emits extractsNothing (openSession (W:=W)).
Proof. split; phase_steps. Qed.

End MoreAttemptFacts.

Section MoreAttemptProperties.

Context {W : Type} `{Oracle W}.

(** X10. A failure while the browser is set up is not retried: the scrape
    throws that error at once, without navigating to the directory and
    without a retry message, and the main block only prints it. *)
Theorem setup_failure_is_not_retried (s : Store W) (e : Error) :
  outcome (openSession s) = Throws e ->
  outcome (scrapeData s) = Throws e /\
  events (scrapeData s) = events (openSession s) /\
  attempts (events (scrapeData s)) = 0 /\
  retryLogs (events (scrapeData s)) = [] /\
  events (main s) = events (openSession s) ++ [Logged (ScrapeError e)].
Proof.
  intros Ho.
  assert (Hs : outcome (scrapeData s) = Throws e)
    by (rewrite scrapeData_outcome, Ho; reflexivity).
  assert (He : events (scrapeData s) = events (openSession s))
    by (rewrite scrapeData_events, Ho; apply app_nil_r).
  split; [exact Hs|]. split; [exact He|]. rewrite main_events, Hs, He.
  split; [apply attempts_none, openSession_no_root|].
  split; [apply retryLogs_none, openSession_no_retry_log|reflexivity].
Qed.

(** X11. The records a scrape returns are those of the profile documents
    obtained in its last attempt, and of no earlier one; there are at most
    as many of them as links in the link set. *)
Theorem returned_rows_come_from_last_attempt (s : Store W) (rows : list MemberRecord) :
  outcome (scrapeData s) = Returns (Rows rows) ->
  exists earlier latest : list Event,
    events (scrapeData s) = earlier ++ latest /\
    attempts latest = 1 /\
    retryLogs latest = [] /\
    rows = map memberInfo (extractedDocs latest) /\
    length rows <= length (allMemberLinks (final (scrapeData s))).
Proof.
  rewrite scrapeData_outcome, scrapeData_events, scrapeData_final.
  destruct (outcome (openSession s)) as [[]|e]; [|discriminate].
  intros Ho. destruct (retryLoop_returned 3 _ _ Ho) as [s' [pre [Ha [Hf He]]]].
  pose proof (attempt_summary s') as Hsum. rewrite Ha in Hsum.
  destruct Hsum as [Hr [Hl _]].
  exists (events (openSession s) ++ pre), (events (attempt s')).
  rewrite He, Hf, app_assoc. repeat split; try assumption.
  - apply attempt_attempts.
  - apply retryLogs_none, attempt_no_retry_log.
Qed.

(** X12. The browser is closed successfully at most once in a scrape, and
    exactly when the scrape returns with a link set that is not empty: a
    scrape that throws, or that found no link, leaves the browser open. *)
Theorem browser_closed_only_after_a_walk (s : Store W) :
  successfulCloses (events (scrapeData s))
  = match outcome (scrapeData s) with
    | Returns (Rows _) =>
        if bool_decide (allMemberLinks (final (scrapeData s)) = []) then 0 else 1
    | _ => 0
    end.
Proof.
  rewrite scrapeData_outcome, scrapeData_events, scrapeData_final, successfulCloses_app.
  rewrite (successfulCloses_none _ _ (proj1 openSession_quiet)).
  destruct (outcome (openSession s)) as [[]|e]; [|reflexivity].
  apply retryLoop_summary.
Qed.

(** X17. A rejected call of the debugging block between the enumeration and
    the profile loop fails the attempt: its error is thrown although the
    links were collected, and no profile is visited. *)
Theorem diagnostics_failure_fails_attempt (s : Store W) (e : Error) :
  outcome (diagnostics (final (enumerate s))) = Throws e ->
  outcome (afterNavigation s) = Throws e /\
  profileVisits (events (afterNavigation s)) = [] /\
  extractedDocs (events (afterNavigation s)) = [] /\
  allMemberLinks (final (afterNavigation s)) = allMemberLinks (final (enumerate s)).
Proof.
  intros Hd. destruct (afterNavigation_parts s) as [Ho [Hf He]]. cbv zeta in Ho, Hf, He.
  rewrite Ho, Hf, He, Hd, app_nil_r.
  change (profileVisits (Slept ?n :: ?evs)) with (profileVisits evs).
  change (extractedDocs (Slept ?n :: ?evs)) with (extractedDocs evs).
  rewrite profileVisits_app, extractedDocs_app.
  rewrite (profileVisits_none _ _ enumerate_visits_nothing).
  rewrite (profileVisits_none _ _ diagnostics_visits_nothing).
  rewrite (extractedDocs_none _ _ (proj2 enumerate_quiet)).
  rewrite (extractedDocs_none _ _ (proj2 diagnostics_quiet)).
  repeat split. apply diagnostics_keeps.
Qed.

End MoreAttemptProperties.

(** ** The main block and the sinks *)

Section MoreSinkFacts.

Context {W : Type} `{Oracle W}.

Lemma writtenRecords_app evs evs' :
  writtenRecords (evs ++ evs') = writtenRecords evs ++ writtenRecords evs'.
Proof. apply omap_app. Qed.

Lemma sheetUpdates_app evs evs' :
  sheetUpdates (evs ++ evs') = sheetUpdates evs ++ sheetUpdates evs'.
Proof. apply omap_app. Qed.

Lemma writtenRecords_none {A} (m : M W A) s :
  emits writesNoRecords m -> writtenRecords (events (m s)) = [].
Proof. intros E. apply omap_none_forallb, E. Qed.

Lemma sheetUpdates_none {A} (m : M W A) s :
  emits updatesNoSheet m -> sheetUpdates (events (m s)) = [].
Proof. intros E. apply omap_none_forallb, E. Qed.

Lemma scrapeData_touches_no_sink :
  emits writesNoRecords (scrapeData (W:=W)) /\ emits updatesNoSheet (scrapeData (W:=W)).
Proof.
  split; unfold scrapeData;
    (apply emits_bind; [phase_steps|intros _]);
    (apply retryLoop_emits; [phase_steps|reflexivity]).
Qed.

Lemma saveToGoogleSheet_writes_no_records rows :
  emits writesNoRecords (saveToGoogleSheet (W:=W) rows).
Proof. phase_steps. Qed.

(** The four ways the spreadsheet sink can go. *)
Lemma saveToGoogleSheet_cases rows (s : Store W) :
  match thrown (events (saveToGoogleSheet rows s)) with
  | [] =>
      sheetCalls (events (saveToGoogleSheet rows s)) = sheetPlan rows /\
      sheetUpdates (events (saveToGoogleSheet rows s)) = [headers :: map rowValues rows] /\
      last (events (saveToGoogleSheet rows s)) = Some (Logged (Uploaded (length rows)))
  | [e] =>
      sheetCalls (events (saveToGoogleSheet rows s)) `prefix_of` sheetPlan rows /\
      sheetCalls (events (saveToGoogleSheet rows s)) <> [] /\
      (sheetUpdates (events (saveToGoogleSheet rows s)) = []
       \/ sheetUpdates (events (saveToGoogleSheet rows s)) = [headers :: map rowValues rows]) /\
      last (events (saveToGoogleSheet rows s)) = Some (Logged (SheetFullError e))
  | _ => False
  end.
Proof.
  unfold saveToGoogleSheet, sheetPlan. run_script.
  answer.
  - answer.
    + answer.
      * repeat split.
      * split; [exists []; reflexivity|]. split; [discriminate|]. split; [right|]; reflexivity.
    + split; [eexists; reflexivity|]. split; [discriminate|]. split; [left|]; reflexivity.
  - split; [eexists; reflexivity|]. split; [discriminate|]. split; [left|]; reflexivity.
Qed.

Lemma exportRows_no_top_error v : emits notTopLevelError (exportRows (W:=W) v).
Proof.
  destruct v as [rows|]; [|apply emits_throw].
  unfold exportRows. destruct (0 <? length rows)%nat; phase_steps.
Qed.

Lemma no_top_error_member evs e :
  forallb notTopLevelError evs = true -> Logged (ScrapeError e) ∉ evs.
Proof.
  intros Hf Hin. apply list_elem_of_In in Hin.
  rewrite forallb_forall in Hf. specialize (Hf _ Hin). discriminate.
Qed.

Lemma rowValues_width (rows : list MemberRecord) :
  Forall (fun cells => length cells = 8) (headers :: map rowValues rows).
Proof.
  apply Forall_cons_2; [reflexivity|]. apply Forall_map, Forall_forall. reflexivity.
Qed.

End MoreSinkFacts.

Section MoreSinkProperties.

Context {W : Type} `{Oracle W}.

(** X13. The main block never throws: every error of the scrape or of the
    CSV writer ends in its [catch]. It prints at most one top-level error,
    as the last thing it does, and that error is the one the scrape or the
    export threw. *)
Theorem main_always_completes (s : Store W) :
  outcome (main s) = Returns tt /\
  length (List.filter isTopLevelError (events (main s))) <= 1 /\
  (forall e,
      Logged (ScrapeError e) ∈ events (main s) ->
      last (events (main s)) = Some (Logged (ScrapeError e)) /\
      (outcome (scrapeData s) = Throws e
       \/ exists v,
           outcome (scrapeData s) = Returns v /\
           outcome (exportRows v (final (scrapeData s))) = Throws e)).
Proof.
  split; [apply main_outcome|]. rewrite main_events.
  pose proof (scrapeData_no_top_error s) as Hs.
  destruct (outcome (scrapeData s)) as [v|e0].
  - pose proof (exportRows_no_top_error v (final (scrapeData s))) as Hx.
    destruct (outcome (exportRows v (final (scrapeData s)))) as [[]|e0] eqn:Ex.
    + rewrite app_nil_r. split.
      * rewrite List.filter_app, (filter_none_forallb _ _ Hs), (filter_none_forallb _ _ Hx).
        cbn. lia.
      * intros e Hin. exfalso. apply elem_of_app in Hin as [Hin|Hin];
          [exact (no_top_error_member _ _ Hs Hin)|exact (no_top_error_member _ _ Hx Hin)].
    + split.
      * rewrite !List.filter_app, (filter_none_forallb _ _ Hs), (filter_none_forallb _ _ Hx).
        cbn. lia.
      * intros e Hin. rewrite !elem_of_app in Hin. destruct Hin as [Hin|[Hin|Hin]];
          [exfalso; exact (no_top_error_member _ _ Hs Hin)
          |exfalso; exact (no_top_error_member _ _ Hx Hin)|].
        apply list_elem_of_singleton in Hin. injection Hin as ->.
        split; [|right; exists v; split; [reflexivity|exact Ex]].
        rewrite app_assoc. apply last_snoc.
  - split.
    + rewrite List.filter_app, (filter_none_forallb _ _ Hs). cbn. lia.
    + intros e Hin. apply elem_of_app in Hin as [Hin|Hin];
        [exfalso; exact (no_top_error_member _ _ Hs Hin)|].
      apply list_elem_of_singleton in Hin. injection Hin as ->.
      split; [apply last_snoc|left; reflexivity].
Qed.

(** X14. The CSV writer is called at most once, with exactly the rows the
    scrape returned, and only when there is at least one. Whatever reaches
    the spreadsheet is the header row followed by one row of eight cells for
    each of the rows that were written to the CSV file before. *)
Theorem sinks_receive_returned_rows (s : Store W) :
  writtenRecords (events (main s))
  = match outcome (scrapeData s) with
    | Returns (Rows (row :: rows)) => [row :: rows]
    | _ => []
    end /\
  (forall values,
      values ∈ sheetUpdates (events (main s)) ->
      exists rows,
        outcome (scrapeData s) = Returns (Rows rows) /\
        writtenRecords (events (main s)) = [rows] /\
        values = headers :: map rowValues rows /\
        length values = S (length rows) /\
        Forall (fun cells => length cells = 8) values).
Proof.
  rewrite main_events, !writtenRecords_app, !sheetUpdates_app.
  rewrite (writtenRecords_none _ s (proj1 scrapeData_touches_no_sink)).
  rewrite (sheetUpdates_none _ s (proj2 scrapeData_touches_no_sink)).
  cbn [app].
  destruct (outcome (scrapeData s)) as [[[|row rows]|]|e].
  - cbn. split; [reflexivity|]. intros values Hin. apply elem_of_nil in Hin. contradiction.
  - assert (N : row :: rows <> []) by discriminate.
    rewrite writtenRecords_app, sheetUpdates_app.
    rewrite (exportRows_events _ _ N), (exportRows_outcome _ _ N).
    set (s1 := final (scrapeData s)).
    pose proof (writtenRecords_none _ (final (call (WriteRecords (row :: rows)) s1))
                  (saveToGoogleSheet_writes_no_records (row :: rows))) as Hw.
    pose proof (saveToGoogleSheet_cases (row :: rows)
                  (final (call (WriteRecords (row :: rows)) s1))) as Hc.
    destruct (fst (respond unit (WriteRecords (row :: rows)) (world s1))) as [[]|e].
    + change (writtenRecords (Called (WriteRecords ?r) ?o :: Logged ?l :: ?evs))
        with (r :: writtenRecords evs).
      change (sheetUpdates (Called (WriteRecords ?r) ?o :: Logged ?l :: ?evs))
        with (sheetUpdates evs).
      rewrite Hw.
      change (writtenRecords []) with (@nil (list MemberRecord)).
      change (sheetUpdates []) with (@nil (list (list jsval))).
      rewrite !app_nil_r. split; [reflexivity|].
      intros values Hin. exists (row :: rows).
      assert (Hv : values = headers :: map rowValues (row :: rows)).
      { destruct (thrown (events (saveToGoogleSheet (row :: rows)
                                     (final (call (WriteRecords (row :: rows)) s1)))))
          as [|e [|e' l]].
        - destruct Hc as [_ [Hu _]]. rewrite Hu in Hin.
          apply list_elem_of_singleton in Hin. exact Hin.
        - destruct Hc as [_ [_ [[Hu|Hu] _]]]; rewrite Hu in Hin.
          + apply elem_of_nil in Hin. contradiction.
          + apply list_elem_of_singleton in Hin. exact Hin.
        - contradiction. }
      subst values. repeat split.
      * cbn [length]. rewrite length_map. reflexivity.
      * apply rowValues_width.
    + cbn. split; [reflexivity|]. intros values Hin. apply elem_of_nil in Hin. contradiction.
  - cbn. split; [reflexivity|]. intros values Hin. apply elem_of_nil in Hin. contradiction.
  - cbn. split; [reflexivity|]. intros values Hin. apply elem_of_nil in Hin. contradiction.
Qed.

(** X15. The spreadsheet sink authenticates, clears the range A:Z and then
    writes the header row and the data at A1, in this order, each step only
    after the one before succeeded. It stops at the first call that
    rejects and logs that error last; so the sheet is never written without
    having been cleared, and a rejected update leaves it cleared. *)
Theorem sheet_calls_follow_plan (rows : list MemberRecord) (s : Store W) :
  match thrown (events (saveToGoogleSheet rows s)) with
  | [] =>
      sheetCalls (events (saveToGoogleSheet rows s)) = sheetPlan rows /\
      sheetUpdates (events (saveToGoogleSheet rows s)) = [headers :: map rowValues rows] /\
      last (events (saveToGoogleSheet rows s)) = Some (Logged (Uploaded (length rows)))
  | [e] =>
      sheetCalls (events (saveToGoogleSheet rows s)) `prefix_of` sheetPlan rows /\
      sheetCalls (events (saveToGoogleSheet rows s)) <> [] /\
      (sheetUpdates (events (saveToGoogleSheet rows s)) = []
       \/ sheetUpdates (events (saveToGoogleSheet rows s)) = [headers :: map rowValues rows]) /\
      last (events (saveToGoogleSheet rows s)) = Some (Logged (SheetFullError e))
  | _ => False
  end.
Proof. apply saveToGoogleSheet_cases. Qed.

End MoreSinkProperties.

(** ** The further properties on the stub site *)

Section MoreStubRuns.

Import Samples Stub.

(** X4 on the stub directory whose wait for the control rejects. *)
Lemma missing_pagination_control_witness :
  events (enumerate (H := oracle (emptyDirectory (only 0))) start)
  = [Called (WaitForSelector pagingSelect 10000) (Throws {| message := js "Navigation timeout" |});
     Logged (PaginationError (js "Navigation timeout"))] /\
  allMemberLinks (final (enumerate (H := oracle (emptyDirectory (only 0))) start)) = [].
Proof.
  exact (proj2 (missing_pagination_control (H := oracle (emptyDirectory (only 0))) start
                  {| message := js "Navigation timeout" |}
                  ltac:(vm_compute; reflexivity))).
Defined.

(** X5 on the stub directory without pagination control. *)
Lemma no_pagination_options_witness :
  outcome (enumerate (H := oracle (emptyDirectory never)) start) = Returns tt /\
  events (enumerate (H := oracle (emptyDirectory never)) start)
  = [Called (WaitForSelector pagingSelect 10000) (Returns tt);
     Called SelectOptions (Returns None);
     Logged (AvailableOptions []);
     Logged (TotalUnique 0)] /\
  allMemberLinks (final (enumerate (H := oracle (emptyDirectory never)) start)) = [].
Proof.
  apply (no_pagination_options (H := oracle (emptyDirectory never)) start tt None).
  - vm_compute. reflexivity.
  - vm_compute. reflexivity.
  - reflexivity.
Defined.

(** X10 on the stub directory whose launch rejects. *)
Lemma setup_failure_is_not_retried_witness :
  outcome (scrapeData (H := oracle (directory (only 0))) start)
  = Throws {| message := js "Navigation timeout" |} /\
  attempts (events (scrapeData (H := oracle (directory (only 0))) start)) = 0.
Proof.
  destruct (setup_failure_is_not_retried (H := oracle (directory (only 0))) start
              {| message := js "Navigation timeout" |}
              ltac:(vm_compute; reflexivity)) as [Ho [_ [Ha _]]].
  split; [exact Ho|exact Ha].
Defined.

(** X11 on the stub directory whose first root navigation rejects. *)
Lemma returned_rows_come_from_last_attempt_witness :
  exists earlier latest : list Event,
    events (scrapeData (H := oracle (directory (only 4))) start) = earlier ++ latest /\
    attempts latest = 1 /\
    retryLogs latest = [] /\
    threeAcmeRecords = map memberInfo (extractedDocs latest) /\
    length threeAcmeRecords
    <= length (allMemberLinks (final (scrapeData (H := oracle (directory (only 4))) start))).
Proof.
  apply (returned_rows_come_from_last_attempt (H := oracle (directory (only 4))) start).
  vm_compute. reflexivity.
Defined.

(** X17 on the stub directory whose main screenshot rejects. *)
Lemma diagnostics_failure_fails_attempt_witness :
  outcome (afterNavigation (H := oracle (directory (only 8))) start)
  = Throws {| message := js "Navigation timeout" |} /\
  profileVisits (events (afterNavigation (H := oracle (directory (only 8))) start)) = [] /\
  allMemberLinks (final (enumerate (H := oracle (directory (only 8))) start))
  = [linkA; linkB; linkC].
Proof.
  destruct (diagnostics_failure_fails_attempt (H := oracle (directory (only 8))) start
              {| message := js "Navigation timeout" |}
              ltac:(vm_compute; reflexivity)) as [Ho [Hv _]].
  split; [exact Ho|]. split; [exact Hv|]. vm_compute. reflexivity.
Defined.

End MoreStubRuns.
